(** * Alembic Visual Manager: parser, revision graph and dependency rewriting

    A shallow embedding of the pure parts of
    [src/services/alembicService.ts] (history and status parsing, the path
    of a revision file) and of [src/views/graphViewProvider.ts] (ancestor
    and applied queries of the webview script, the text computed by
    [modifyDependency], the clicks that choose a new parent, and the
    layout of [renderSimpleGraph]).

    JavaScript strings are modelled by [string]; every character stands for
    one code unit below 256.  In that range the white space recognised by
    [String.prototype.trim] and by the regular expression class [\s] is
    TAB, LF, VT, FF, CR, SPACE and NBSP, and the line terminators that the
    class [.] excludes and that [^] (with the [m] flag) follows are LF and
    CR. *)

From Stdlib Require Import String Ascii List Bool Arith Lia Permutation.
Import ListNotations.
Open Scope list_scope.
Open Scope string_scope.

(* ================================================================= *)
(** ** Characters and strings *)

Module JsString.

Definition LF : ascii := "010"%char.
Definition CR : ascii := "013"%char.
Definition DQUOTE : ascii := "034"%char.
Definition SQUOTE : ascii := "039"%char.

Definition nl : string := String LF "".

(** [[a-f0-9]] *)
Definition isHex (c : ascii) : bool :=
  let n := nat_of_ascii c in
  (((48 <=? n) && (n <=? 57)) || ((97 <=? n) && (n <=? 102)))%nat.

(** [\s], and the characters removed by [trim()] *)
Definition isSpace (c : ascii) : bool :=
  let n := nat_of_ascii c in
  (((9 <=? n) && (n <=? 13)) || (n =? 32) || (n =? 160))%nat.

Definition isLineTerminator (c : ascii) : bool :=
  Ascii.eqb c LF || Ascii.eqb c CR.

(** [.] *)
Definition isDot (c : ascii) : bool := negb (isLineTerminator c).

(** The class of the two quote characters, single and double. *)
Definition isQuote (c : ascii) : bool :=
  Ascii.eqb c SQUOTE || Ascii.eqb c DQUOTE.

(** [[^)]] *)
Definition notRParen (c : ascii) : bool := negb (Ascii.eqb c ")"%char).

Definition isEmpty (s : string) : bool :=
  match s with EmptyString => true | String _ _ => false end.

(** Truthiness of a string value: only the empty string is falsy. *)
Definition truthy (s : string) : bool := negb (isEmpty s).

(** [s.startsWith(p)] *)
Definition startsWith (s p : string) : bool := String.prefix p s.

(** [s.includes(sub)] *)
Fixpoint includes (s sub : string) : bool :=
  String.prefix sub s ||
  match s with
  | EmptyString => false
  | String _ s' => includes s' sub
  end.

Fixpoint trimStart (s : string) : string :=
  match s with
  | EmptyString => EmptyString
  | String c s' => if isSpace c then trimStart s' else s
  end.

Fixpoint trimEnd (s : string) : string :=
  match s with
  | EmptyString => EmptyString
  | String c s' =>
      let t := trimEnd s' in
      if isSpace c && isEmpty t then EmptyString else String c t
  end.

(** [s.trim()] *)
Definition trim (s : string) : string := trimEnd (trimStart s).

(** [s.split('\n')]: never empty, the empty string splits into one empty
    line. *)
Fixpoint split_lines (s : string) : list string :=
  match s with
  | EmptyString => [EmptyString]
  | String c s' =>
      if Ascii.eqb c LF then EmptyString :: split_lines s'
      else match split_lines s' with
           | l :: ls => String c l :: ls
           | [] => [String c EmptyString]
           end
  end.

(** [ls.join('\n')] *)
Definition join_lines (ls : list string) : string := String.concat nl ls.

(** [s.substring(0, n)] *)
Definition take (n : nat) (s : string) : string := String.substring 0 n s.

(** [s.slice(1, -1)]: drops the first and the last character. *)
Fixpoint dropLast (s : string) : string :=
  match s with
  | EmptyString => EmptyString
  | String c s' => if isEmpty s' then EmptyString else String c (dropLast s')
  end.

Definition slice_1_m1 (s : string) : string :=
  match s with
  | EmptyString => EmptyString
  | String _ s' => dropLast s'
  end.

(** The longest prefix of [s] whose characters satisfy [p], and the rest:
    what a greedy [[class]*] consumes. *)
Fixpoint span (p : ascii -> bool) (s : string) : string * string :=
  match s with
  | EmptyString => (EmptyString, EmptyString)
  | String c s' =>
      if p c then let '(a, b) := span p s' in (String c a, b)
      else (EmptyString, s)
  end.

(** [strip p s] is what follows the literal [p] at the start of [s]. *)
Fixpoint strip (p s : string) : option string :=
  match p, s with
  | EmptyString, _ => Some s
  | String a p', String b s' => if Ascii.eqb a b then strip p' s' else None
  | String _ _, EmptyString => None
  end.

Fixpoint allb (p : ascii -> bool) (s : string) : bool :=
  match s with
  | EmptyString => true
  | String c s' => p c && allb p s'
  end.

(** [a.includes(x)] on an array of strings *)
Definition array_includes (a : list string) (x : string) : bool :=
  existsb (String.eqb x) a.

End JsString.
Import JsString.

(* ================================================================= *)
(** ** Regular expressions of the source

    Each pattern of the source is a sequence of literals and greedy
    character classes in which no class can match the character that the
    next element requires, so the backtracking matcher of JavaScript has a
    single way to match at a given position.  A matcher below takes the
    text at a start position and returns the captures (or the matched
    text) together with what follows the match.  [search] tries the start
    positions from left to right, as [String.prototype.match] and
    [String.prototype.replace] do for a pattern without the [g] flag. *)

Module Regex.

Section Search.
Context {A : Type}.
Variable matcher : string -> option A.

(** The leftmost match; the text before it is returned as well. *)
Fixpoint search (s : string) : option (string * A) :=
  match matcher s with
  | Some x => Some (EmptyString, x)
  | None =>
      match s with
      | EmptyString => None
      | String c s' =>
          match search s' with
          | Some (pre, x) => Some (String c pre, x)
          | None => None
          end
      end
  end.

(** The leftmost match of a pattern that starts with [^] under the [m]
    flag: a start position qualifies when it is the start of the text or
    follows a line terminator ([bol]). *)
Fixpoint search_bol (bol : bool) (s : string) : option (string * A) :=
  match (if bol then matcher s else None) with
  | Some x => Some (EmptyString, x)
  | None =>
      match s with
      | EmptyString => None
      | String c s' =>
          match search_bol (isLineTerminator c) s' with
          | Some (pre, x) => Some (String c pre, x)
          | None => None
          end
      end
  end.
End Search.

(** The header pattern at a start position: the literal [Rev: ], then
    [([a-f0-9]+)] (capture 1), then a greedy run of [.] (capture 2). *)
Definition rev_at (s : string) : option (string * string) :=
  match strip "Rev: " s with
  | None => None
  | Some r =>
      let '(hex, r') := span isHex r in
      if isEmpty hex then None
      else let '(status, _) := span isDot r' in Some (hex, status)
  end.

Definition rev_match (s : string) : option (string * string) :=
  option_map snd (search rev_at s).

(** [/Parent: ([a-f0-9]+|<base>)/] at a start position: the capture. *)
Definition parent_at (s : string) : option string :=
  match strip "Parent: " s with
  | None => None
  | Some r =>
      let '(hex, _) := span isHex r in
      if isEmpty hex then
        match strip "<base>" r with
        | Some _ => Some "<base>"
        | None => None
        end
      else Some hex
  end.

Definition parent_match (s : string) : option string :=
  option_map snd (search parent_at s).

(** [/Create Date: (.+)/] at a start position: the capture. *)
Definition date_at (s : string) : option string :=
  match strip "Create Date: " s with
  | None => None
  | Some r =>
      let '(d, _) := span isDot r in
      if isEmpty d then None else Some d
  end.

Definition date_match (s : string) : option string :=
  option_map snd (search date_at s).

(** [/([a-f0-9]+)/] at a start position: the capture. *)
Definition hex_at (s : string) : option string :=
  let '(hex, _) := span isHex s in
  if isEmpty hex then None else Some hex.

Definition hex_match (s : string) : option string :=
  option_map snd (search hex_at s).

(** [/\(([^)]+)\)/] at a start position: the matched text and the rest. *)
Definition paren_at (s : string) : option (string * string) :=
  match s with
  | String "("%char r =>
      let '(body, r') := span notRParen r in
      if isEmpty body then None
      else match r' with
           | String ")"%char rest =>
               Some (String "("%char (body ++ String ")"%char ""), rest)
           | _ => None
           end
  | _ => None
  end.

(** [s.match(/\(([^)]+)\)/g)]: every match from left to right, each search
    resuming where the previous match ended; [None] stands for [null].  A
    match is at least three characters long, so [String.length s] rounds
    are enough. *)
Fixpoint paren_all_from (fuel : nat) (s : string) : list string :=
  match fuel with
  | O => []
  | S fuel' =>
      match search paren_at s with
      | Some (_, (m, rest)) => m :: paren_all_from fuel' rest
      | None => []
      end
  end.

Definition paren_match_all (s : string) : option (list string) :=
  match paren_all_from (String.length s) s with
  | [] => None
  | ms => Some ms
  end.

(** [/^Revises:\s*[^\r\n]*/m] at a line start: the matched text and the
    rest.  [\s*] also runs over line breaks. *)
Definition revises_at (s : string) : option (string * string) :=
  match strip "Revises:" s with
  | None => None
  | Some r =>
      let '(ws, r1) := span isSpace r in
      let '(line, r2) := span isDot r1 in
      Some ("Revises:" ++ ws ++ line, r2)
  end.

(** [/down_revision\s*=\s*Q[^Q]*Q/] at a start position, where [Q] is the
    class of the two quote characters: the matched text and the rest. *)
Definition down_revision_at (s : string) : option (string * string) :=
  match strip "down_revision" s with
  | None => None
  | Some r =>
      let '(ws1, r1) := span isSpace r in
      match r1 with
      | String "="%char r2 =>
          let '(ws2, r3) := span isSpace r2 in
          match r3 with
          | String q1 r4 =>
              if isQuote q1 then
                let '(body, r5) := span (fun c => negb (isQuote c)) r4 in
                match r5 with
                | String q2 rest =>
                    if isQuote q2 then
                      Some ("down_revision" ++ ws1 ++ String "="%char
                              (ws2 ++ String q1 (body ++ String q2 "")),
                            rest)
                    else None
                | EmptyString => None
                end
              else None
          | EmptyString => None
          end
      | _ => None
      end
  end.

(** The replacement text of [String.prototype.replace]: [$$], [$&],
    [$`] and [$'] are expanded; the patterns have no capture groups, so
    every other [$] stays as it is. *)
Fixpoint substitution (repl pre matched post : string) : string :=
  match repl with
  | EmptyString => EmptyString
  | String "$"%char (String "$"%char r) =>
      String "$"%char (substitution r pre matched post)
  | String "$"%char (String "&"%char r) =>
      matched ++ substitution r pre matched post
  | String "$"%char (String "`"%char r) =>
      pre ++ substitution r pre matched post
  | String "$"%char (String "'"%char r) =>
      post ++ substitution r pre matched post
  | String c r => String c (substitution r pre matched post)
  end.

(** [text.replace(/^Revises:\s*[^\r\n]*/m, repl)] *)
Definition replace_revises (repl text : string) : string :=
  match search_bol revises_at true text with
  | Some (pre, (m, post)) => pre ++ substitution repl pre m post ++ post
  | None => text
  end.

(** [text.replace(/down_revision\s*=\s*Q[^Q]*Q/, repl)] *)
Definition replace_down_revision (repl text : string) : string :=
  match search down_revision_at text with
  | Some (pre, (m, post)) => pre ++ substitution repl pre m post ++ post
  | None => text
  end.

End Regex.
Import Regex.

(* ================================================================= *)
(** ** Revision records *)

(** [interface RevisionInfo] *)
Record RevisionInfo : Type := mkRevisionInfo {
  id : string;
  shortId : string;
  message : string;
  branchLabels : list string;
  downRevision : option string;         (* [None] is [null] *)
  isCurrent : bool;
  isHead : bool;
  isMerge : bool;
  author : option string;               (* [None] is [undefined] *)
  date : option string
}.

(** [Partial<RevisionInfo>]: every field may be missing ([None] is
    [undefined]); [downRevision] may also hold [null]. *)
Record PartialRevisionInfo : Type := mkPartial {
  p_id : option string;
  p_shortId : option string;
  p_message : option string;
  p_branchLabels : option (list string);
  p_downRevision : option (option string);
  p_isCurrent : option bool;
  p_isHead : option bool;
  p_isMerge : option bool;
  p_author : option string;
  p_date : option string
}.

(** The object literal [{}]. *)
Definition emptyPartial : PartialRevisionInfo :=
  mkPartial None None None None None None None None None None.

Definition set_message (m : string) (p : PartialRevisionInfo) :=
  mkPartial (p_id p) (p_shortId p) (Some m) (p_branchLabels p)
            (p_downRevision p) (p_isCurrent p) (p_isHead p) (p_isMerge p)
            (p_author p) (p_date p).

Definition set_downRevision (d : option string) (p : PartialRevisionInfo) :=
  mkPartial (p_id p) (p_shortId p) (p_message p) (p_branchLabels p)
            (Some d) (p_isCurrent p) (p_isHead p) (p_isMerge p)
            (p_author p) (p_date p).

Definition set_isMerge (b : bool) (p : PartialRevisionInfo) :=
  mkPartial (p_id p) (p_shortId p) (p_message p) (p_branchLabels p)
            (p_downRevision p) (p_isCurrent p) (p_isHead p) (Some b)
            (p_author p) (p_date p).

Definition set_date (d : string) (p : PartialRevisionInfo) :=
  mkPartial (p_id p) (p_shortId p) (p_message p) (p_branchLabels p)
            (p_downRevision p) (p_isCurrent p) (p_isHead p) (p_isMerge p)
            (p_author p) (Some d).

(** [x || ''] *)
Definition or_empty (x : option string) : string :=
  match x with
  | Some s => if truthy s then s else EmptyString
  | None => EmptyString
  end.

(** [x || null] *)
Definition or_null (x : option (option string)) : option string :=
  match x with
  | Some (Some s) => if truthy s then Some s else None
  | _ => None
  end.

(** Truthiness of [partial.id]. *)
Definition has_id (p : PartialRevisionInfo) : bool :=
  match p_id p with
  | Some s => truthy s
  | None => false
  end.

(* ================================================================= *)
(** ** [AlembicService]: parsing *)

Definition completeRevisionInfo (partial : PartialRevisionInfo)
    (currentRevisions headRevisions : list string) : RevisionInfo :=
  {| id := or_empty (p_id partial);
     shortId := or_empty (p_shortId partial);
     message := or_empty (p_message partial);
     branchLabels := match p_branchLabels partial with
                     | Some l => l
                     | None => []
                     end;
     downRevision := or_null (p_downRevision partial);
     isCurrent := array_includes currentRevisions (or_empty (p_id partial));
     isHead := array_includes headRevisions (or_empty (p_id partial));
     isMerge := match p_isMerge partial with
                | Some b => b
                | None => false
                end;
     author := p_author partial;
     date := p_date partial |}.

(** The variables of the scan in [parseHistory]. *)
Record ParseState : Type := mkState {
  revisions : list RevisionInfo;          (* in the order of [push] *)
  currentRevision : PartialRevisionInfo;
  messageLines : list string;
  inMessage : bool
}.

Definition initialState : ParseState := mkState [] emptyPartial [] false.

Section ParseHistory.
Variables currentRevisions headRevisions : list string.

(** The block guarded by [if (currentRevision.id)], at a header line and
    after the scan: the pending message is attached and the record is
    pushed. *)
Definition flush (st : ParseState) : list RevisionInfo :=
  if has_id (currentRevision st) then
    let cur :=
      match messageLines st with
      | [] => currentRevision st
      | _ :: _ =>
          set_message (trim (join_lines (messageLines st)))
                      (currentRevision st)
      end in
    (revisions st ++
       [completeRevisionInfo cur currentRevisions headRevisions])%list
  else revisions st.

(** The accumulator started by a header line. *)
Definition startRevision (trimmedLine : string) : PartialRevisionInfo :=
  match rev_match trimmedLine with
  | Some (hex, statusPart) =>
      mkPartial (Some hex) (Some (take 8 hex)) None
        (Some match paren_match_all statusPart with
              | Some branchMatch =>
                  filter (fun label =>
                            negb (String.eqb label "current") &&
                            negb (String.eqb label "head"))
                         (map slice_1_m1 branchMatch)
              | None => []
              end)
        None
        (Some (includes statusPart "(current)"))
        (Some (includes statusPart "(head)"))
        None None None
  | None => emptyPartial
  end.

(** One iteration of the [for] loop. *)
Definition step (st : ParseState) (line : string) : ParseState :=
  let trimmedLine := trim line in
  if startsWith trimmedLine "Rev:" then
    mkState (flush st) (startRevision trimmedLine) [] false
  else if startsWith trimmedLine "Parent:" then
    match parent_match trimmedLine with
    | Some g =>
        mkState (revisions st)
          (set_downRevision
             (if String.eqb g "<base>" then None else Some g)
             (currentRevision st))
          (messageLines st) (inMessage st)
    | None => st
    end
  else if startsWith trimmedLine "Path:" then
    mkState (revisions st) (currentRevision st) (messageLines st) false
  else if startsWith trimmedLine "Merge point:" then
    mkState (revisions st) (set_isMerge true (currentRevision st))
            (messageLines st) (inMessage st)
  else if startsWith trimmedLine "Revision ID:" ||
          startsWith trimmedLine "Revises:" ||
          startsWith trimmedLine "Create Date:" then
    let cur :=
      if startsWith trimmedLine "Create Date:" then
        match date_match trimmedLine with
        | Some d => set_date d (currentRevision st)
        | None => currentRevision st
        end
      else currentRevision st in
    mkState (revisions st) cur (messageLines st) false
  else if truthy trimmedLine && negb (inMessage st) &&
          negb (startsWith trimmedLine "INFO ") then
    mkState (revisions st) (currentRevision st)
            (messageLines st ++ [trimmedLine])%list true
  else if inMessage st && truthy trimmedLine &&
          negb (startsWith trimmedLine "INFO ") then
    mkState (revisions st) (currentRevision st)
            (messageLines st ++ [trimmedLine])%list (inMessage st)
  else if inMessage st && negb (truthy trimmedLine) then
    mkState (revisions st) (currentRevision st) (messageLines st) false
  else st.

(** The scan of a list of lines from a given state, with the flush that
    follows the loop: the records in the order they are pushed. *)
Definition scan (st : ParseState) (lines : list string)
  : list RevisionInfo :=
  flush (fold_left step lines st).

Definition parseLines (lines : list string) : list RevisionInfo :=
  scan initialState lines.

Definition parseHistory (output : string) : list RevisionInfo :=
  rev (parseLines (split_lines output)).
End ParseHistory.

(** The body shared by [parseCurrentRevisions] and [parseHeadRevisions]:
    the first match of [/([a-f0-9]+)/] of every line that has one. *)
Fixpoint collectRevisions (lines : list string) : list string :=
  match lines with
  | [] => []
  | line :: rest =>
      match hex_match line with
      | Some m => m :: collectRevisions rest
      | None => collectRevisions rest
      end
  end.

Definition parseCurrentRevisions (output : string) : list string :=
  collectRevisions (split_lines output).

Definition parseHeadRevisions (output : string) : list string :=
  collectRevisions (split_lines output).

(** [getHistory], given the three outputs of the command line tool. *)
Definition getHistory (historyOutput currentOutput headsOutput : string)
  : list RevisionInfo :=
  parseHistory (parseCurrentRevisions currentOutput)
               (parseHeadRevisions headsOutput) historyOutput.

(* ================================================================= *)
(** ** [GraphViewProvider]: queries of the webview script *)

Module Graph.

Section Queries.
(** The script's variable [revisions], set from the last
    [updateRevisions] message. *)
Variable revisions : list RevisionInfo.

(** [revisions.find(r => r.id === x)] *)
Definition findById (x : string) : option RevisionInfo :=
  find (fun r => String.eqb (id r) x) revisions.

(** What one evaluation of the [while] condition and body does with the
    variable [current] ([None] is [undefined]). *)
Inductive Outcome : Type :=
| Return (b : bool)
| Continue (current : option RevisionInfo).

Definition isAncestor_body (ancestor : RevisionInfo)
    (current : option RevisionInfo) : Outcome :=
  match current with
  | None => Return false
  | Some c =>
      match downRevision c with
      | None => Return false
      | Some d =>
          if truthy d then
            if String.eqb d (id ancestor) then Return true
            else Continue (findById d)
          else Return false
      end
  end.

(** The loop run for at most [fuel] iterations; [None] when the loop is
    still running after them. *)
Fixpoint isAncestor_loop (fuel : nat) (ancestor : RevisionInfo)
    (current : option RevisionInfo) : option bool :=
  match fuel with
  | O => None
  | S fuel' =>
      match isAncestor_body ancestor current with
      | Return b => Some b
      | Continue next => isAncestor_loop fuel' ancestor next
      end
  end.

Definition isAncestor (fuel : nat) (ancestor descendant : RevisionInfo)
  : option bool :=
  isAncestor_loop fuel ancestor (Some descendant).

(** [a.some(f)] for a callback that may not return: the elements are
    tried in order and the first [true] ends the search. *)
Fixpoint array_some {A : Type} (f : A -> option bool) (a : list A)
  : option bool :=
  match a with
  | [] => Some false
  | x :: rest =>
      match f x with
      | None => None
      | Some true => Some true
      | Some false => array_some f rest
      end
  end.

Definition isApplied (fuel : nat) (revision : RevisionInfo) : option bool :=
  if isCurrent revision then Some true
  else array_some
         (fun r => if isCurrent r then isAncestor fuel revision r
                   else Some false)
         revisions.
End Queries.

(** The text computed by [modifyDependency] from the text of the revision
    file, once the user has confirmed and the file was found. *)
Definition modifyDependency (text newParent : string) : string :=
  let updatedText := text in
  let updatedText :=
    replace_revises ("Revises: " ++ newParent) updatedText in
  let updatedText :=
    replace_down_revision
      ("down_revision = " ++ String DQUOTE (newParent ++ String DQUOTE ""))
      updatedText in
  if String.eqb newParent "<base>" || String.eqb newParent "None" then
    let updatedText := replace_revises "Revises:" updatedText in
    replace_down_revision "down_revision = None" updatedText
  else updatedText.

End Graph.
Import Graph.

(* ================================================================= *)
(** ** Vocabulary of the statements *)

Module Spec.

(** A header line, and the identifier it carries when the header pattern
    matches. *)
Definition isHeader (line : string) : bool := startsWith (trim line) "Rev:".

Definition headerId (line : string) : list string :=
  if isHeader line then
    match rev_match (trim line) with
    | Some (hex, _) => [hex]
    | None => []
    end
  else [].

Definition headerIds (lines : list string) : list string :=
  flat_map headerId lines.

(** A header line that the header pattern rejects. *)
Definition malformedHeader (line : string) : Prop :=
  isHeader line = true /\ rev_match (trim line) = None.

(** What holds of every record the parser emits. *)
Definition emitted (cur heads : list string) (r : RevisionInfo) : Prop :=
  id r <> "" /\ allb isHex (id r) = true /\
  shortId r = take 8 (id r) /\
  isCurrent r = array_includes cur (id r) /\
  isHead r = array_includes heads (id r).

(** What holds of the accumulator during the scan. *)
Definition pending (p : PartialRevisionInfo) : Prop :=
  match p_id p with
  | Some h => h <> "" /\ allb isHex h = true /\
              p_shortId p = Some (take 8 h)
  | None => True
  end.

Definition invariant (cur heads : list string) (st : ParseState) : Prop :=
  Forall (emitted cur heads) (revisions st) /\ pending (currentRevision st).

(** The identifiers of the records pushed so far and of the accumulator. *)
Definition pendingId (p : PartialRevisionInfo) : list string :=
  if has_id p then [or_empty (p_id p)] else [].

Definition ids (st : ParseState) : list string :=
  (map id (revisions st) ++ pendingId (currentRevision st))%list.

(** The scan does not look at the records already pushed. *)
Definition withRevisions (rs : list RevisionInfo) (st : ParseState) :=
  mkState (rs ++ revisions st)%list (currentRevision st) (messageLines st)
          (inMessage st).

(** The value of [current] after an iteration of the loop of [isAncestor]
    that does not return. *)
Definition parentOf (revisions : list RevisionInfo)
    (current : option RevisionInfo) : option RevisionInfo :=
  match current with
  | Some c =>
      match downRevision c with
      | Some d => if truthy d then findById revisions d else None
      | None => None
      end
  | None => None
  end.

(** The walk along [downRevision]: [current] after [k] such iterations. *)
Fixpoint walk (revisions : list RevisionInfo) (k : nat)
    (current : option RevisionInfo) : option RevisionInfo :=
  match k with
  | O => current
  | S k' => walk revisions k' (parentOf revisions current)
  end.

(** The walk from [b] comes to a record without a parent, or to a parent
    identifier that no record carries. *)
Definition walkEnds (revisions : list RevisionInfo) (b : RevisionInfo)
  : Prop :=
  exists k, walk revisions k (Some b) = None.

(** The walk from [b] comes to a record whose parent is [a]. *)
Definition reaches (revisions : list RevisionInfo) (a b : RevisionInfo)
  : Prop :=
  exists k c, walk revisions k (Some b) = Some c /\
              downRevision c = Some (id a) /\ truthy (id a) = true.

(** [isAncestor(a, b)] returns. *)
Definition terminates (revisions : list RevisionInfo) (a b : RevisionInfo)
  : Prop :=
  exists fuel r, isAncestor revisions fuel a b = Some r.

(** [isApplied(n)] returns [r]. *)
Definition appliedIs (revisions : list RevisionInfo) (n : RevisionInfo)
    (r : bool) : Prop :=
  exists fuel, isApplied revisions fuel n = Some r.

(** [[^a-f0-9]] *)
Definition notHex (c : ascii) : bool := negb (isHex c).

(** [line] has a character of [[a-f0-9]]. *)
Definition hasHex (line : string) : bool := negb (allb notHex line).

(** [t] is the first maximal run of [[a-f0-9]] characters of [line]:
    nothing before it is in the class, and it cannot be extended. *)
Definition firstHexRun (line t : string) : Prop :=
  exists pre post,
    line = pre ++ t ++ post /\ allb notHex pre = true /\
    t <> "" /\ allb isHex t = true /\
    match post with EmptyString => True | String c _ => isHex c = false end.

(** [[^Q]] for the class [Q] of the quote characters. *)
Definition notQuote (c : ascii) : bool := negb (isQuote c).

(** Whether a position is the start of a line, given whether the start of
    [pre] is and that [pre] lies between the two. *)
Fixpoint bolAfter (bol : bool) (pre : string) : bool :=
  match pre with
  | EmptyString => bol
  | String c pre' => bolAfter (isLineTerminator c) pre'
  end.

(** The first match of the pattern of the [Revises:] line in [text] is
    [m], between [pre] and [post]. *)
Definition firstRevises (text pre m post : string) : Prop :=
  search_bol revises_at true text = Some (pre, (m, post)).

(** The first match of the pattern of the quoted [down_revision]
    assignment in [text] is [m], between [pre] and [post]. *)
Definition firstAssignment (text pre m post : string) : Prop :=
  search down_revision_at text = Some (pre, (m, post)).

(** The root sentinels of [modifyDependency]. *)
Definition rootSentinel (newParent : string) : Prop :=
  newParent = "<base>" \/ newParent = "None".

(** A character on which a match of the assignment pattern can only
    start, or which it can only take into the quoted value: not white
    space, not [=], not a quote, not a character of [own_revision]. *)
Definition inert (c : ascii) : bool :=
  negb (isSpace c) && negb (Ascii.eqb c "="%char) && negb (isQuote c) &&
  allb (fun x => negb (Ascii.eqb x c)) "own_revision".

Definition startsInert (s : string) : bool :=
  match s with
  | EmptyString => false
  | String c _ => inert c
  end.

Definition hasQuote (s : string) : bool := negb (allb notQuote s).

(** The part of a match of the assignment pattern up to the opening
    quote. *)
Definition assignmentHead (ws1 ws2 : string) (q1 : ascii) : string :=
  "down_revision" ++ ws1 ++ String "="%char (ws2 ++ String q1 "").

(** A character other than [d], on which no match of the assignment
    pattern starts. *)
Definition notD (c : ascii) : bool := negb (Ascii.eqb c "d"%char).

End Spec.
Import Spec.

(* ================================================================= *)
(** ** Sample inputs *)

Module Samples.

Definition node (i : string) (parent : option string) (current : bool)
  : RevisionInfo :=
  mkRevisionInfo i (take 8 i) "" [] parent current false false None None.

(** A history in which revision [aa] names itself as its parent. *)
Definition cyclicHistory : string :=
  join_lines ["Rev: bb"; "Rev: aa"; "Parent: aa"].

Definition cyclicGraph : list RevisionInfo :=
  [node "aa" (Some "aa") false; node "bb" None false].

(** The same history with a current revision [cc] on top of [bb]; the
    listing of current revisions names [aa] and [cc]. *)
Definition appliedHistory : string :=
  join_lines ["Rev: cc"; "Parent: bb"; "Rev: bb"; "Rev: aa"; "Parent: aa"].

Definition appliedCurrent : string := join_lines ["aa"; "cc"].

Definition appliedGraph : list RevisionInfo :=
  [node "aa" (Some "aa") true; node "bb" None false;
   node "cc" (Some "bb") true].

(** A history with one revision that is its own parent. *)
Definition selfLoopHistory : string := join_lines ["Rev: aa"; "Parent: aa"].

(** Two histories with the same records, two of which carry the
    identifier [aa], listed in different orders. *)
Definition duplicateHistory : string :=
  join_lines ["Rev: dd"; "Parent: aa"; "Rev: cc";
              "Rev: aa"; "Parent: cc"; "Rev: aa"].

Definition duplicateHistory' : string :=
  join_lines ["Rev: dd"; "Parent: aa"; "Rev: cc";
              "Rev: aa"; "Rev: aa"; "Parent: cc"].

Definition duplicateGraph : list RevisionInfo :=
  [node "aa" None false; node "aa" (Some "cc") false;
   node "cc" None false; node "dd" (Some "aa") false].

Definition duplicateGraph' : list RevisionInfo :=
  [node "aa" (Some "cc") false; node "aa" None false;
   node "cc" None false; node "dd" (Some "aa") false].

(** A linear history of three revisions, the middle one current, with a
    header line that carries no identifier between the last two. *)
Definition linearHistory : string :=
  join_lines ["Rev: c3 (head)"; "Parent: b2"; "Path: versions/c3.py";
              ""; "    third"; "";
              "Rev: b2"; "Parent: a1"; "Path: versions/b2.py";
              ""; "    second"; "";
              "Rev: (unknown)"; "    stray text";
              "Rev: a1"; "Parent: <base>"; "Path: versions/a1.py";
              ""; "    first"].

Definition linearA1 : RevisionInfo :=
  mkRevisionInfo "a1" "a1" "first" [] None false false false None None.

Definition linearB2 : RevisionInfo :=
  mkRevisionInfo "b2" "b2" "second" [] (Some "a1") true false false
                 None None.

Definition linearC3 : RevisionInfo :=
  mkRevisionInfo "c3" "c3" "third" [] (Some "b2") false true false
                 None None.

Definition linearGraph : list RevisionInfo := [linearA1; linearB2; linearC3].

(** A revision file with a parent, in the layout of Alembic's template. *)
Definition childFile : string :=
  join_lines ["add users"; ""; "Revision ID: def456"; "Revises: abc123";
              "Create Date: 2024-01-01 10:00:00"; "";
              "revision = 'def456'"; "down_revision = 'abc123'";
              "branch_labels = None"].


(** A root revision: an empty [Revises:] line and no parent. *)
Definition rootFile : string :=
  join_lines ["init"; ""; "Revision ID: abc123"; "Revises: ";
              "Create Date: 2024-01-01 09:00:00"; "";
              "revision = 'abc123'"; "down_revision = None"; ""].

(** The same two lines next to each other. *)
Definition bareRootFile : string :=
  join_lines ["Revises:"; "down_revision = None"; ""].

End Samples.
Import Samples.

(* ================================================================= *)
(** ** [AlembicService.getRevisionFilePath] *)

Module Service.

(** [/Path: (.+)/] at a start position: the capture. *)
Definition path_at (s : string) : option string :=
  match strip "Path: " s with
  | None => None
  | Some r =>
      let '(p, _) := span isDot r in
      if isEmpty p then None else Some p
  end.

(** [getRevisionFilePath], given what [alembic show] printed, or [None]
    when the command was rejected (the [catch] branch): the capture of
    the first match, or [null]. *)
Definition getRevisionFilePath (showOutput : option string)
  : option string :=
  match showOutput with
  | Some output => option_map snd (search path_at output)
  | None => None
  end.

End Service.
Import Service.

(* ================================================================= *)
(** ** The webview script: choosing a new parent *)

Module Webview.









End Webview.
Import Webview.

(* ================================================================= *)
(** ** The webview script: [renderSimpleGraph] *)

Module Render.

(** An object used as a map from identifiers to values: its own
    properties.  The keys are identifiers of records of a parse, strings
    of characters [[a-f0-9]], none of which names a property that an
    object inherits. *)
Definition JsObject (A : Type) : Type := string -> option A.

(** The object literal [{}]. *)
Definition emptyObject {A : Type} : JsObject A := fun _ => None.

(** [o[k] = v] *)
Definition setProperty {A : Type} (o : JsObject A) (k : string) (v : A)
  : JsObject A :=
  fun k' => if String.eqb k' k then Some v else o k'.

(** An entry of [nodePositions], with the coordinates that
    [renderSimpleGraph] writes (a drag, which stores the coordinates of
    the pointer, is not part of the model). *)
Record Position : Type := mkPos { pos_x : nat; pos_y : nat }.

Definition nodeWidth : nat := 180.
Definition nodeHeight : nat := 60.
Definition levelHeight : nat := 100.

(** The first [forEach]: [levels[revision.id] = maxLevel - index]. *)
Fixpoint assignLevels (maxLevel index : nat) (revisions : list RevisionInfo)
    (levels : JsObject nat) : JsObject nat :=
  match revisions with
  | [] => levels
  | revision :: rest =>
      assignLevels maxLevel (S index) rest
                   (setProperty levels (id revision) (maxLevel - index))
  end.

(** [revisions.findIndex(r => r.id === x)]; [None] is [-1]. *)
Fixpoint findIndex (revisions : list RevisionInfo) (x : string)
  : option nat :=
  match revisions with
  | [] => None
  | r :: rest =>
      if String.eqb (id r) x then Some 0
      else option_map S (findIndex rest x)
  end.

Definition getNodeColor (revision : RevisionInfo) : string :=
  if isCurrent revision then "var(--vscode-button-background)"
  else if isHead revision then
    "var(--vscode-gitDecoration-modifiedResourceForeground)"
  else "var(--vscode-editor-background)".

Definition getNodeBorderColor (revision : RevisionInfo) : string :=
  if isCurrent revision then "var(--vscode-button-background)"
  else if isHead revision then
    "var(--vscode-gitDecoration-modifiedResourceForeground)"
  else "var(--vscode-panel-border)".

(** The children that the loop gives to [mainGroup]: the [line] of an
    edge with its end points and the group [g] of a node with its
    translation, the colours of its rectangle and its two texts. *)
Inductive Element : Type :=
| Line (x1 y1 x2 y2 : nat) (dataParent dataChild : string)
| Node (x y : nat) (fill stroke idText messageText dataRevisionId : string).

(** How a call ends: the [svg] is appended to the container; reading
    [parentPos.x] throws; or [isApplied] is still running. *)
Inductive Rendering : Type :=
| Drawn (children : list Element)
| Thrown
| Running.

(** The stored position of the node, or the default one, which is then
    stored.  Every identifier was given a level by the first loop. *)
Definition place (levels : JsObject nat) (index : nat)
    (nodePositions : JsObject Position) (revision : RevisionInfo)
  : JsObject Position * Position :=
  let level := match levels (id revision) with
               | Some l => l
               | None => 0
               end in
  let defaultX := 50 + (index mod 3) * (nodeWidth + 20) in
  let defaultY := 50 + (level - 1) * levelHeight in
  match nodePositions (id revision) with
  | Some position => (nodePositions, position)
  | None =>
      let position := mkPos defaultX defaultY in
      (setProperty nodePositions (id revision) position, position)
  end.

(** The variable [className], which nothing reads; [None] when
    [isApplied] does not return within [fuel]. *)
Definition className (revisions : list RevisionInfo) (fuel : nat)
    (revision : RevisionInfo) : option string :=
  let c := "node" in
  let c := if isCurrent revision then c ++ " current"
           else if isHead revision then c ++ " head" else c in
  let c := if isMerge revision then c ++ " merge" else c in
  if negb (isCurrent revision) then
    match isApplied revisions fuel revision with
    | Some applied => Some (if negb applied then c ++ " unapplied" else c)
    | None => None
    end
  else Some c.

Definition messageText (message : string) : string :=
  if (20 <? String.length message)%nat then take 20 message ++ "..."
  else message.

Definition nodeElement (position : Position) (revision : RevisionInfo)
  : Element :=
  Node (pos_x position) (pos_y position)
       (getNodeColor revision) (getNodeBorderColor revision)
       (shortId revision) (messageText (message revision)) (id revision).

(** The line to the parent, inserted before the group of the node: none
    without a parent or when no record carries the parent's identifier;
    [None] when the parent has no stored position yet and reading
    [parentPos.x] throws. *)
Definition parentLine (revisions : list RevisionInfo)
    (nodePositions : JsObject Position) (position : Position)
    (revision : RevisionInfo) : option (list Element) :=
  match downRevision revision with
  | Some d =>
      if truthy d then
        match findIndex revisions d with
        | Some _ =>
            match nodePositions d with
            | Some parentPos =>
                Some [Line (pos_x parentPos + nodeWidth / 2)
                           (pos_y parentPos)
                           (pos_x position + nodeWidth / 2)
                           (pos_y position + nodeHeight)
                           d (id revision)]
            | None => None
            end
        | None => Some []
        end
      else Some []
  | None => Some []
  end.

(** The second [forEach], from [index] on. *)
Fixpoint renderNodes (revisions : list RevisionInfo) (levels : JsObject nat)
    (fuel index : nat) (todo : list RevisionInfo)
    (nodePositions : JsObject Position) (children : list Element)
  : JsObject Position * Rendering :=
  match todo with
  | [] => (nodePositions, Drawn children)
  | revision :: rest =>
      let '(nodePositions, position) :=
        place levels index nodePositions revision in
      match className revisions fuel revision with
      | None => (nodePositions, Running)
      | Some _ =>
          match parentLine revisions nodePositions position revision with
          | None => (nodePositions, Thrown)
          | Some line =>
              renderNodes revisions levels fuel (S index) rest nodePositions
                          (children ++ line ++ [nodeElement position revision])
          end
      end
  end.

(** [renderSimpleGraph] on the script's variables [revisions] and
    [nodePositions]: the positions stored when the call ends, and how it
    ends. *)
Definition renderSimpleGraph (fuel : nat) (revisions : list RevisionInfo)
    (nodePositions : JsObject Position) : JsObject Position * Rendering :=
  let maxLevel := length revisions in
  let levels := assignLevels maxLevel 0 revisions emptyObject in
  renderNodes revisions levels fuel 0 revisions nodePositions [].

End Render.
Import Render.

(* ================================================================= *)
(** ** Vocabulary of the further statements *)

Module Spec2.

(** A line of the logger of the command line tool. *)
Definition isLogLine (line : string) : bool :=
  startsWith (trim line) "INFO ".

Definition notLogLine (line : string) : bool := negb (isLogLine line).

(** The prefixes that keep a line out of a message. *)
Definition keywords : list string :=
  ["Rev:"; "Parent:"; "Path:"; "Merge point:"; "Revision ID:";
   "Revises:"; "Create Date:"; "INFO "].

(** [t] is a line of a message of a parse of [lines]: the trimmed form
    of one of the lines, not empty and starting with no keyword. *)
Definition messageLine (lines : list string) (t : string) : Prop :=
  t <> "" /\ (exists l, In l lines /\ t = trim l) /\
  Forall (fun k => startsWith t k = false) keywords.

(** [s] has no line feed. *)
Definition notLF (c : ascii) : bool := negb (Ascii.eqb c LF).

(** A parent of a record: absent, or a non-empty identifier. *)
Definition parentOk (d : option string) : Prop :=
  match d with
  | None => True
  | Some p => p <> "" /\ allb isHex p = true
  end.

(** A branch label. *)
Definition labelOk (l : string) : Prop :=
  l <> "" /\ allb notRParen l = true /\ l <> "current" /\ l <> "head".

(** The first line of a blob is a header line. *)
Definition startsWithHeader (blob : string) : Prop :=
  match split_lines blob with
  | h :: _ => isHeader h = true
  | [] => False
  end.

(** The text written for a parent [p] in a file whose first [Revises:]
    match is between [u] and [w] and whose first quoted assignment is
    between [w] and [b]. *)
Definition reparented (u w b p : string) : string :=
  u ++ "Revises: " ++ p ++ w ++
  "down_revision = " ++ String DQUOTE (p ++ String DQUOTE b).

Definition parentInvariant (st : ParseState) : Prop :=
  Forall (fun r => parentOk (downRevision r)) (revisions st) /\
  parentOk (or_null (p_downRevision (currentRevision st))).

(** A match of the pattern of the parenthesised tokens. *)
Definition parenthesised (m : string) : Prop :=
  exists body, m = String "("%char (body ++ ")") /\ body <> "" /\
               allb notRParen body = true.

Definition labelsOk (l : option (list string)) : Prop :=
  match l with
  | Some ls => Forall labelOk ls
  | None => True
  end.

Definition labelInvariant (st : ParseState) : Prop :=
  Forall (fun r => Forall labelOk (branchLabels r)) (revisions st) /\
  labelsOk (p_branchLabels (currentRevision st)).

(** A message: empty, or made of message lines. *)
Definition messageOk (lines : list string) (m : string) : Prop :=
  m = "" \/ Forall (messageLine lines) (split_lines m).

Definition messageInvariant (lines : list string) (st : ParseState) : Prop :=
  Forall (fun r => messageOk lines (message r)) (revisions st) /\
  p_message (currentRevision st) = None /\
  Forall (messageLine lines) (messageLines st).

(** What can be joined and split again: not empty, trimmed, no line
    feed. *)
Definition plainLine (t : string) : Prop :=
  t <> "" /\ trimStart t = t /\ trimEnd t = t /\ allb notLF t = true.

(** An identifier as the parser yields them. *)
Definition hexId (p : string) : Prop := p <> "" /\ allb isHex p = true.

(** The assignment written for a parent [p]. *)
Definition assignmentOf (p : string) : string :=
  "down_revision = " ++ String DQUOTE (p ++ String DQUOTE "").

Definition noDollar (c : ascii) : bool := negb (Ascii.eqb c "$"%char).



(** The default position of the node at [index] among [n]. *)
Definition defaultPosition (n index : nat) : Position :=
  mkPos (50 + (index mod 3) * 200) (50 + (n - index - 1) * 100).

(** The parent of every record, when a record of the graph carries its
    identifier, is found at or before the record. *)
Definition parentsFirst (g : list RevisionInfo) : Prop :=
  forall i r d j,
    nth_error g i = Some r -> downRevision r = Some d ->
    findIndex g d = Some j -> j <= i.

(** The line of the record [r] at index [i], from the middle of the top
    of the parent's box to the middle of the bottom of its own. *)
Definition expectedLine (g : list RevisionInfo) (i : nat) (r : RevisionInfo)
  : list Element :=
  match downRevision r with
  | Some d =>
      if truthy d then
        match findIndex g d with
        | Some j =>
            [Line (pos_x (defaultPosition (length g) j) + 90)
                  (pos_y (defaultPosition (length g) j))
                  (pos_x (defaultPosition (length g) i) + 90)
                  (pos_y (defaultPosition (length g) i) + 60)
                  d (id r)]
        | None => []
        end
      else []
  | None => []
  end.

(** The drawing of the records [todo], which start at index [i] of [g],
    with every node at its default position. *)
Fixpoint drawingFrom (g : list RevisionInfo) (i : nat)
    (todo : list RevisionInfo) : list Element :=
  match todo with
  | [] => []
  | r :: rest =>
      (expectedLine g i r
         ++ [nodeElement (defaultPosition (length g) i) r]
         ++ drawingFrom g (S i) rest)%list
  end.

Definition drawing (g : list RevisionInfo) : list Element :=
  drawingFrom g 0 g.

(** The boxes of a drawing: identifier and position of every node. *)
Definition boxes (els : list Element) : list (string * Position) :=
  flat_map (fun e => match e with
                     | Node x y _ _ _ _ i => [(i, mkPos x y)]
                     | Line _ _ _ _ _ _ => []
                     end) els.

(** The positions stored are the default positions of the records
    [done]. *)
Definition stored (n : nat) (done : list RevisionInfo)
    (np : JsObject Position) : Prop :=
  forall k, np k = option_map (defaultPosition n) (findIndex done k).

(** The call does not end with a drawing. *)
Definition notDrawn (r : Rendering) : Prop :=
  match r with
  | Drawn _ => False
  | _ => True
  end.

End Spec2.
Import Spec2.

(* ================================================================= *)
(** ** Further sample inputs *)

Module Samples2.

(** [linearHistory] with lines of the logger in it. *)
Definition noisyHistory : string :=
  join_lines ["INFO  [alembic.runtime.migration] Context impl SQLiteImpl.";
              "Rev: c3 (head)"; "Parent: b2"; "Path: versions/c3.py";
              ""; "    third"; "  INFO  [alembic] mid message"; "";
              "Rev: b2"; "Parent: a1"; "Path: versions/b2.py";
              ""; "    second"; "";
              "Rev: (unknown)"; "    stray text";
              "Rev: a1"; "Parent: <base>"; "Path: versions/a1.py";
              ""; "    first"; "INFO  done"].

(** The two halves of a listing of [c3] and [b2]. *)
Definition newerListing : string :=
  join_lines ["Rev: c3 (head)"; "Parent: b2"; "    third"].

Definition olderListing : string :=
  join_lines ["Rev: b2 (feature) (current)"; "Parent: a1";
              "Merge point: yes"; "    second"].

(** What [alembic show] prints for a revision. *)
Definition showOutput : string :=
  join_lines ["Rev: def456 (head)"; "Parent: abc123";
              "Path: /srv/app/versions/def456_add_users.py"; "";
              "    add users"].


(** A listing with the oldest revision first. *)
Definition oldestFirstHistory : string :=
  join_lines ["Rev: a1"; "Parent: <base>"; "Rev: b2"; "Parent: a1"].

(** A listing in which two header lines carry the same identifier. *)
Definition twiceHistory : string := join_lines ["Rev: aa"; "Rev: aa"].

End Samples2.
Import Samples2.

(* ================================================================= *)
(** ** Facts about strings and matchers *)

Module StringFacts.

Lemma append_nil_r (s : string) : s ++ "" = s.
Proof. induction s as [|c s IH]; simpl; [reflexivity | now rewrite IH]. Qed.

Lemma append_assoc (a b c : string) : (a ++ b) ++ c = a ++ (b ++ c).
Proof. induction a as [|x a IH]; simpl; [reflexivity | now rewrite IH]. Qed.

Lemma isEmpty_true (s : string) : isEmpty s = true <-> s = "".
Proof. destruct s; simpl; split; congruence. Qed.

Lemma isEmpty_false (s : string) : isEmpty s = false <-> s <> "".
Proof. destruct s; simpl; split; congruence. Qed.

Lemma truthy_true (s : string) : truthy s = true <-> s <> "".
Proof. unfold truthy. destruct s; simpl; split; congruence. Qed.

Lemma allb_app (p : ascii -> bool) (a b : string) :
  allb p (a ++ b) = allb p a && allb p b.
Proof.
  induction a as [|c a IH]; simpl; [reflexivity|].
  now rewrite IH, andb_assoc.
Qed.

(** What [span] returns: the split of the text, a prefix inside the class
    and a rest that is empty or starts outside the class. *)
Lemma span_spec (p : ascii -> bool) (s a b : string) :
  span p s = (a, b) ->
  s = a ++ b /\ allb p a = true /\
  match b with EmptyString => True | String c _ => p c = false end.
Proof.
  revert a b. induction s as [|c s IH]; simpl; intros a b H.
  - inversion H; subst. simpl. auto.
  - destruct (p c) eqn:Hc.
    + destruct (span p s) as [a' b'] eqn:Hs. inversion H; subst.
      destruct (IH a' b eq_refl) as (E & Ha & Hb).
      simpl. rewrite Hc, Ha. subst s. auto.
    + inversion H; subst. simpl. rewrite Hc. auto.
Qed.

(** Conversely a split of that shape is the one [span] finds. *)
Lemma span_app (p : ascii -> bool) (a b : string) :
  allb p a = true ->
  match b with EmptyString => True | String c _ => p c = false end ->
  span p (a ++ b) = (a, b).
Proof.
  intros Ha Hb. induction a as [|c a IH]; simpl in *.
  - destruct b as [|c b]; simpl; [reflexivity | now rewrite Hb].
  - apply andb_true_iff in Ha as [Hc Ha]. rewrite Hc, (IH Ha). reflexivity.
Qed.

Lemma strip_spec (p s r : string) : strip p s = Some r <-> s = p ++ r.
Proof.
  revert s. induction p as [|a p IH]; intros s; simpl.
  - split; intros H; [now inversion H | now subst].
  - destruct s as [|b s]; [split; discriminate|].
    destruct (Ascii.eqb_spec a b) as [->|Hne].
    + rewrite IH. split; intros H; [now subst | now inversion H].
    + split; [discriminate | intros H; inversion H; congruence].
Qed.

Lemma strip_app (p r : string) : strip p (p ++ r) = Some r.
Proof. now apply strip_spec. Qed.

Lemma prefix_strip (p s : string) :
  String.prefix p s = true <-> exists r, strip p s = Some r.
Proof.
  revert s. induction p as [|a p IH]; intros s; simpl.
  - destruct s; split; eauto.
  - destruct s as [|b s]; simpl.
    + split; [discriminate | intros [r H]; discriminate].
    + destruct (Ascii.ascii_dec a b) as [->|Hne].
      * rewrite Ascii.eqb_refl. apply IH.
      * destruct (Ascii.eqb_spec a b); [contradiction|].
        split; [discriminate | intros [r H]; discriminate].
Qed.

Lemma take_prefix (n : nat) (s : string) : String.prefix (take n s) s = true.
Proof.
  unfold take. revert n. induction s as [|c s IH]; intros [|n]; simpl; auto.
  destruct (Ascii.ascii_dec c c); [apply IH | contradiction].
Qed.

Lemma take_length (n : nat) (s : string) :
  String.length (take n s) = Nat.min n (String.length s).
Proof.
  unfold take. revert n. induction s as [|c s IH]; intros [|n]; simpl; auto.
Qed.

Lemma take_all (n : nat) (s : string) :
  String.length s <= n -> take n s = s.
Proof.
  unfold take. revert n. induction s as [|c s IH]; intros [|n] H; simpl in *;
    try reflexivity; try lia.
  rewrite IH; [reflexivity | lia].
Qed.

Lemma array_includes_In (a : list string) (x : string) :
  array_includes a x = true <-> In x a.
Proof.
  unfold array_includes. rewrite existsb_exists. split.
  - intros (y & Hy & E). apply String.eqb_eq in E. now subst.
  - intros H. exists x. split; [assumption | apply String.eqb_refl].
Qed.

Section SearchFacts.
Context {A : Type}.
Variable matcher : string -> option A.

(** A match found by [search] is a match of the pattern at the position
    that follows the returned prefix, and no earlier position matches. *)
Lemma search_Some (s pre : string) (x : A) :
  search matcher s = Some (pre, x) ->
  exists suf, s = pre ++ suf /\ matcher suf = Some x /\
    forall p1 p2, pre = p1 ++ p2 -> p2 <> "" ->
                  matcher (p2 ++ suf) = None.
Proof.
  revert pre. induction s as [|c s IH]; simpl; intros pre H.
  - destruct (matcher "") eqn:Hm; [|discriminate].
    inversion H; subst. exists "". repeat split; auto.
    intros [|? ?] p2; simpl; intros E; [subst; congruence | discriminate].
  - destruct (matcher (String c s)) eqn:Hm.
    + inversion H; subst. exists (String c s). repeat split; auto.
      intros [|? ?] p2; simpl; intros E; [subst; congruence | discriminate].
    + destruct (search matcher s) as [[pre' x']|] eqn:Hs; [|discriminate].
      inversion H; subst.
      destruct (IH pre' eq_refl) as (suf & E & Hx & Hmin).
      exists suf. subst s. repeat split; auto.
      intros [|d p1] p2; simpl; intros E2 Hne.
      * subst p2. simpl. exact Hm.
      * inversion E2; subst. now apply (Hmin p1 p2).
Qed.

Lemma search_None (s : string) :
  search matcher s = None ->
  forall p1 p2, s = p1 ++ p2 -> matcher p2 = None.
Proof.
  induction s as [|c s IH]; simpl; intros H p1 p2 E.
  - destruct (matcher "") eqn:Hm; [discriminate|].
    destruct p1; simpl in E; [now subst | discriminate].
  - destruct (matcher (String c s)) eqn:Hm; [discriminate|].
    destruct (search matcher s) as [[? ?]|] eqn:Hs; [discriminate|].
    destruct p1 as [|d p1]; simpl in E; [now subst|].
    inversion E; subst. now apply (IH eq_refl p1 p2).
Qed.

(** The converse: the first position at which the pattern matches. *)
Lemma search_intro (pre suf : string) (x : A) :
  matcher suf = Some x ->
  (forall p1 p2, pre = p1 ++ p2 -> p2 <> "" ->
                 matcher (p2 ++ suf) = None) ->
  search matcher (pre ++ suf) = Some (pre, x).
Proof.
  intros Hx. induction pre as [|c pre IH]; intros Hmin; simpl.
  - destruct suf; simpl; now rewrite Hx.
  - assert (H0 : matcher (String c pre ++ suf) = None)
      by (apply (Hmin "" (String c pre) eq_refl); discriminate).
    simpl in H0. rewrite H0.
    rewrite IH; [reflexivity|].
    intros p1 p2 E Hne. apply (Hmin (String c p1) p2); [|assumption].
    simpl. now rewrite E.
Qed.
End SearchFacts.

Lemma rev_at_hex (s hex status : string) :
  rev_at s = Some (hex, status) -> hex <> "" /\ allb isHex hex = true.
Proof.
  unfold rev_at. destruct (strip "Rev: " s) as [r|]; [|discriminate].
  destruct (span isHex r) as [h r'] eqn:Hs.
  destruct (isEmpty h) eqn:He; [discriminate|].
  destruct (span isDot r') as [st ?]. intros H; inversion H; subst.
  apply isEmpty_false in He. apply span_spec in Hs. tauto.
Qed.

Lemma rev_match_hex (s hex status : string) :
  rev_match s = Some (hex, status) -> hex <> "" /\ allb isHex hex = true.
Proof.
  unfold rev_match. destruct (search rev_at s) as [[pre x]|] eqn:Hs;
    [|discriminate].
  simpl. intros H; inversion H; subst.
  apply search_Some in Hs as (suf & _ & Hm & _).
  now apply rev_at_hex in Hm.
Qed.

End StringFacts.
Import StringFacts.

(* ================================================================= *)
(** ** The history parser *)

Module ParserFacts.

Lemma or_empty_Some (s : string) : or_empty (Some s) = s.
Proof. unfold or_empty, truthy. now destruct s. Qed.

(** Case analysis over the branches of [step]. *)
Ltac step_cases :=
  repeat match goal with
         | |- context [if ?b then _ else _] => destruct b
         | |- context [match ?o with Some _ => _ | None => _ end] =>
             destruct o
         end.

Section Invariant.
Variables cur heads : list string.

Lemma complete_emitted (p : PartialRevisionInfo) :
  has_id p = true -> pending p ->
  emitted cur heads (completeRevisionInfo p cur heads).
Proof.
  unfold has_id, pending, emitted. destruct (p_id p) as [h|] eqn:E;
    [|discriminate].
  intros _ (Hne & Hhex & Hshort). simpl.
  rewrite E, Hshort, !or_empty_Some. auto.
Qed.

Lemma pending_start (t : string) : pending (startRevision t).
Proof.
  unfold startRevision, pending.
  destruct (rev_match t) as [[hex status]|] eqn:E; simpl; [|exact I].
  apply rev_match_hex in E. tauto.
Qed.

Lemma flush_emitted (st : ParseState) :
  invariant cur heads st -> Forall (emitted cur heads) (flush cur heads st).
Proof.
  intros [Hr Hp]. unfold flush.
  destruct (has_id (currentRevision st)) eqn:Hid; [|assumption].
  apply Forall_app. split; [assumption|]. constructor; [|constructor].
  apply complete_emitted; destruct (messageLines st); assumption.
Qed.

Lemma step_invariant (st : ParseState) (line : string) :
  invariant cur heads st -> invariant cur heads (step cur heads st line).
Proof.
  intros Hinv. pose proof (flush_emitted st Hinv) as Hf.
  destruct Hinv as [Hr Hp]. unfold step.
  step_cases; split; simpl; try assumption; apply pending_start.
Qed.

Lemma fold_invariant (lines : list string) (st : ParseState) :
  invariant cur heads st ->
  invariant cur heads (fold_left (step cur heads) lines st).
Proof.
  revert st. induction lines as [|l ls IH]; simpl; intros st H;
    [assumption|].
  apply IH, step_invariant, H.
Qed.

Lemma parseLines_emitted (lines : list string) :
  Forall (emitted cur heads) (parseLines cur heads lines).
Proof.
  apply flush_emitted, fold_invariant. split; [constructor | exact I].
Qed.

Lemma parseHistory_emitted (output : string) :
  Forall (emitted cur heads) (parseHistory cur heads output).
Proof.
  unfold parseHistory. apply Forall_rev, parseLines_emitted.
Qed.

(** *** The identifiers of the emitted records *)

Lemma flush_ids (st : ParseState) : map id (flush cur heads st) = ids st.
Proof.
  unfold flush, ids, pendingId.
  destruct (has_id (currentRevision st)).
  - rewrite map_app. simpl. now destruct (messageLines st).
  - now rewrite app_nil_r.
Qed.

Lemma pendingId_start (line : string) :
  isHeader line = true ->
  pendingId (startRevision (trim line)) = headerId line.
Proof.
  intros H. unfold headerId, startRevision, pendingId, has_id.
  rewrite H. destruct (rev_match (trim line)) as [[hex status]|] eqn:E;
    simpl; [|reflexivity].
  apply rev_match_hex in E as [Hne _].
  destruct hex; [contradiction | reflexivity].
Qed.

Lemma step_ids (st : ParseState) (line : string) :
  ids (step cur heads st line) = (ids st ++ headerId line)%list.
Proof.
  unfold step. fold (isHeader line).
  destruct (isHeader line) eqn:Hh.
  - unfold ids at 1. simpl. now rewrite flush_ids, pendingId_start.
  - assert (E : headerId line = []) by (unfold headerId; now rewrite Hh).
    rewrite E, app_nil_r. step_cases; reflexivity.
Qed.

Lemma fold_ids (lines : list string) (st : ParseState) :
  ids (fold_left (step cur heads) lines st)
  = (ids st ++ headerIds lines)%list.
Proof.
  revert st. induction lines as [|l ls IH]; simpl; intros st.
  - now rewrite app_nil_r.
  - now rewrite IH, step_ids, <- app_assoc.
Qed.

Lemma parseLines_ids (lines : list string) :
  map id (parseLines cur heads lines) = headerIds lines.
Proof.
  unfold parseLines, scan. now rewrite flush_ids, fold_ids.
Qed.

(** *** Header lines separate the records *)

Lemma flush_withRevisions (rs : list RevisionInfo) (st : ParseState) :
  flush cur heads (withRevisions rs st) = (rs ++ flush cur heads st)%list.
Proof.
  unfold flush, withRevisions. simpl.
  destruct (has_id (currentRevision st)); [|reflexivity].
  now rewrite app_assoc.
Qed.

Lemma step_withRevisions (rs : list RevisionInfo) (st : ParseState)
    (line : string) :
  step cur heads (withRevisions rs st) line
  = withRevisions rs (step cur heads st line).
Proof.
  unfold step. destruct (startsWith (trim line) "Rev:").
  - rewrite flush_withRevisions. reflexivity.
  - destruct st as [revs c ms im]. unfold withRevisions. simpl.
    step_cases; reflexivity.
Qed.

Lemma scan_withRevisions (rs : list RevisionInfo) (lines : list string)
    (st : ParseState) :
  scan cur heads (withRevisions rs st) lines
  = (rs ++ scan cur heads st lines)%list.
Proof.
  unfold scan. revert st. induction lines as [|l ls IH]; simpl; intros st.
  - apply flush_withRevisions.
  - rewrite step_withRevisions. apply IH.
Qed.

(** At a header line the record before it is finished exactly as at the
    end of the input, and the scan goes on as from the start. *)
Lemma parseLines_header (xs ys : list string) (h : string) :
  isHeader h = true ->
  parseLines cur heads (xs ++ h :: ys)
  = (parseLines cur heads xs ++ parseLines cur heads (h :: ys))%list.
Proof.
  intros Hh. unfold parseLines, scan at 1.
  rewrite fold_left_app. simpl.
  set (st := fold_left (step cur heads) xs initialState).
  assert (E : step cur heads st h
              = withRevisions (flush cur heads st)
                  (step cur heads initialState h)).
  { unfold step. unfold isHeader in Hh. rewrite Hh.
    unfold withRevisions. simpl. now rewrite app_nil_r. }
  rewrite E. fold (scan cur heads
    (withRevisions (flush cur heads st) (step cur heads initialState h)) ys).
  rewrite scan_withRevisions. reflexivity.
Qed.

(** A header line without a valid identifier leaves the start state. *)
Lemma step_malformed (h : string) :
  malformedHeader h -> step cur heads initialState h = initialState.
Proof.
  intros [Hh Hm]. unfold step. unfold isHeader in Hh. rewrite Hh.
  unfold startRevision. rewrite Hm. reflexivity.
Qed.

Lemma parseLines_malformed (xs ys : list string) (h : string) :
  malformedHeader h ->
  parseLines cur heads (xs ++ h :: ys)
  = (parseLines cur heads xs ++ parseLines cur heads ys)%list.
Proof.
  intros Hm. rewrite parseLines_header by apply Hm.
  f_equal. unfold parseLines, scan. simpl. now rewrite step_malformed.
Qed.
End Invariant.

End ParserFacts.
Import ParserFacts.

(* ================================================================= *)
(** ** The queries on the graph *)

Module GraphFacts.

Section Walk.
Variable g : list RevisionInfo.

Lemma walk_None (k : nat) : walk g k None = None.
Proof. induction k; simpl; auto. Qed.

Lemma walk_add (j k : nat) (cur : option RevisionInfo) :
  walk g (j + k) cur = walk g k (walk g j cur).
Proof. revert cur. induction j; simpl; intros cur; auto. Qed.

Lemma walk_None_le (j k : nat) (cur : option RevisionInfo) :
  walk g j cur = None -> j <= k -> walk g k cur = None.
Proof.
  intros H Hle. replace k with (j + (k - j)) by lia.
  rewrite walk_add, H. apply walk_None.
Qed.

(** The three outcomes of an iteration, in terms of the walk. *)
Lemma body_true (a : RevisionInfo) (cur : option RevisionInfo) :
  isAncestor_body g a cur = Return true <->
  exists c, cur = Some c /\ downRevision c = Some (id a) /\
            truthy (id a) = true.
Proof.
  unfold isAncestor_body. destruct cur as [c|].
  - destruct (downRevision c) as [d|] eqn:Hd.
    + destruct (truthy d) eqn:Ht.
      * destruct (String.eqb_spec d (id a)) as [->|Hne]; split.
        -- intros _. exists c. auto.
        -- reflexivity.
        -- discriminate.
        -- intros (c' & E & Hd' & _). inversion E; subst. congruence.
      * split; [discriminate|].
        intros (c' & E & Hd' & Ht'). inversion E; subst. congruence.
    + split; [discriminate|].
      intros (c' & E & Hd' & _). inversion E; subst. congruence.
  - split; [discriminate | intros (c' & E & _); discriminate].
Qed.

Lemma body_false (a : RevisionInfo) (cur : option RevisionInfo) :
  isAncestor_body g a cur = Return false -> parentOf g cur = None.
Proof.
  unfold isAncestor_body, parentOf. destruct cur as [c|]; [|reflexivity].
  destruct (downRevision c) as [d|]; [|reflexivity].
  destruct (truthy d); [|reflexivity].
  destruct (String.eqb d (id a)); discriminate.
Qed.

Lemma body_continue (a : RevisionInfo) (cur next : option RevisionInfo) :
  isAncestor_body g a cur = Continue next -> next = parentOf g cur.
Proof.
  unfold isAncestor_body, parentOf. destruct cur as [c|]; [|discriminate].
  destruct (downRevision c) as [d|]; [|discriminate].
  destruct (truthy d); [|discriminate].
  destruct (String.eqb d (id a)); [discriminate|].
  intros H. now inversion H.
Qed.

Lemma loop_S (a : RevisionInfo) (fuel : nat) (cur : option RevisionInfo) :
  isAncestor_loop g (S fuel) a cur
  = match isAncestor_body g a cur with
    | Return b => Some b
    | Continue next => isAncestor_loop g fuel a next
    end.
Proof. reflexivity. Qed.

Lemma loop_true_reaches (a : RevisionInfo) (fuel : nat)
    (cur : option RevisionInfo) :
  isAncestor_loop g fuel a cur = Some true ->
  exists k c, walk g k cur = Some c /\ downRevision c = Some (id a) /\
              truthy (id a) = true.
Proof.
  revert cur. induction fuel as [|fuel IH]; simpl; intros cur H;
    [discriminate|].
  destruct (isAncestor_body g a cur) as [[|]|next] eqn:Hb.
  - apply body_true in Hb as (c & -> & Hd & Ht). exists 0, c. simpl. auto.
  - discriminate.
  - apply body_continue in Hb. subst next.
    destruct (IH _ H) as (k & c & Hw & Hd). exists (S k), c. simpl. auto.
Qed.

Lemma reaches_loop_true (a : RevisionInfo) (k : nat)
    (cur : option RevisionInfo) (c : RevisionInfo) :
  walk g k cur = Some c -> downRevision c = Some (id a) ->
  truthy (id a) = true ->
  isAncestor_loop g (S k) a cur = Some true.
Proof.
  intros Hw Hd Ht. revert cur Hw.
  induction k as [|k IH]; intros cur Hw.
  - simpl in Hw. subst cur.
    assert (E : isAncestor_body g a (Some c) = Return true)
      by (apply body_true; eauto).
    now rewrite loop_S, E.
  - simpl in Hw. rewrite loop_S.
    destruct (isAncestor_body g a cur) as [[|]|next] eqn:Hb.
    + reflexivity.
    + apply body_false in Hb. rewrite Hb, walk_None in Hw. discriminate.
    + apply body_continue in Hb. subst next. now apply IH.
Qed.

Lemma loop_false_ends (a : RevisionInfo) (fuel : nat)
    (cur : option RevisionInfo) :
  isAncestor_loop g fuel a cur = Some false -> walk g fuel cur = None.
Proof.
  revert cur. induction fuel as [|fuel IH]; simpl; intros cur H;
    [discriminate|].
  destruct (isAncestor_body g a cur) as [[|]|next] eqn:Hb.
  - discriminate.
  - apply body_false in Hb. rewrite Hb. apply walk_None.
  - apply body_continue in Hb. subst next. now apply IH.
Qed.

Lemma ends_loop_returns (a : RevisionInfo) (k : nat)
    (cur : option RevisionInfo) :
  walk g k cur = None -> exists r, isAncestor_loop g (S k) a cur = Some r.
Proof.
  revert cur. induction k as [|k IH]; intros cur Hw.
  - simpl in Hw. subst cur. simpl. eauto.
  - simpl in Hw. rewrite loop_S.
    destruct (isAncestor_body g a cur) as [b|next] eqn:Hb; [eauto|].
    apply body_continue in Hb. subst next. now apply IH.
Qed.

(** More iterations do not change a result. *)
Lemma loop_fuel_mono (a : RevisionInfo) (fuel fuel' : nat)
    (cur : option RevisionInfo) (r : bool) :
  isAncestor_loop g fuel a cur = Some r -> fuel <= fuel' ->
  isAncestor_loop g fuel' a cur = Some r.
Proof.
  revert fuel' cur. induction fuel as [|fuel IH]; simpl; intros fuel' cur H L;
    [discriminate|].
  destruct fuel' as [|fuel']; [lia|]. simpl.
  destruct (isAncestor_body g a cur) as [b|next]; [assumption|].
  apply IH; [assumption | lia].
Qed.

Lemma terminates_iff (a b : RevisionInfo) :
  terminates g a b <-> reaches g a b \/ walkEnds g b.
Proof.
  unfold terminates, reaches, walkEnds, isAncestor. split.
  - intros (fuel & [|] & H).
    + left. now apply loop_true_reaches in H.
    + right. apply loop_false_ends in H. eauto.
  - intros [(k & c & Hw & Hd & Ht) | (k & Hw)].
    + exists (S k), true. eapply reaches_loop_true; eauto.
    + destruct (ends_loop_returns a k _ Hw) as (r & H). eauto.
Qed.

Lemma true_iff_reaches (a b : RevisionInfo) :
  (exists fuel, isAncestor g fuel a b = Some true) <-> reaches g a b.
Proof.
  unfold reaches, isAncestor. split.
  - intros (fuel & H). now apply loop_true_reaches in H.
  - intros (k & c & Hw & Hd & Ht). exists (S k).
    eapply reaches_loop_true; eauto.
Qed.

Lemma false_ends (a b : RevisionInfo) (fuel : nat) :
  isAncestor g fuel a b = Some false -> walkEnds g b /\ ~ reaches g a b.
Proof.
  intros H. split.
  - exists fuel. now apply loop_false_ends in H.
  - intros Hr. apply true_iff_reaches in Hr as (fuel' & H').
    unfold isAncestor in *.
    apply (loop_fuel_mono _ _ (fuel + fuel')) in H; [|lia].
    apply (loop_fuel_mono _ _ (fuel + fuel')) in H'; [|lia].
    congruence.
Qed.
End Walk.

(** *** Lookup by identifier *)

Lemma findById_Some (g : list RevisionInfo) (x : string) (r : RevisionInfo) :
  findById g x = Some r -> In r g /\ id r = x.
Proof.
  unfold findById. intros H. apply find_some in H as [Hin E].
  apply String.eqb_eq in E. auto.
Qed.

Lemma findById_None (g : list RevisionInfo) (x : string) :
  findById g x = None -> forall r, In r g -> id r <> x.
Proof.
  unfold findById. intros H r Hin E.
  apply (find_none _ _ H) in Hin. simpl in Hin.
  apply String.eqb_neq in Hin. contradiction.
Qed.

Lemma NoDup_ids_inj (g : list RevisionInfo) (r r' : RevisionInfo) :
  NoDup (map id g) -> In r g -> In r' g -> id r = id r' -> r = r'.
Proof.
  induction g as [|x g IH]; simpl; intros ND Hr Hr' E; [contradiction|].
  inversion ND as [|? ? Hnot ND']; subst.
  destruct Hr as [->|Hr], Hr' as [->|Hr']; auto.
  - exfalso. apply Hnot. rewrite E. now apply in_map.
  - exfalso. apply Hnot. rewrite <- E. now apply in_map.
Qed.

Lemma findById_In (g : list RevisionInfo) (r : RevisionInfo) :
  NoDup (map id g) -> In r g -> findById g (id r) = Some r.
Proof.
  intros ND Hin. destruct (findById g (id r)) as [r'|] eqn:E.
  - apply findById_Some in E as [Hin' E]. f_equal.
    now apply (NoDup_ids_inj g).
  - exfalso. now apply (findById_None g (id r) E r).
Qed.

Lemma findById_perm (g g' : list RevisionInfo) (x : string) :
  NoDup (map id g) -> Permutation g g' -> findById g' x = findById g x.
Proof.
  intros ND P. destruct (findById g x) as [r|] eqn:E.
  - apply findById_Some in E as [Hin E]. subst x.
    apply findById_In.
    + eapply Permutation_NoDup; [|exact ND]. now apply Permutation_map.
    + eapply Permutation_in; eauto.
  - destruct (findById g' x) as [r'|] eqn:E'; [|reflexivity].
    apply findById_Some in E' as [Hin' E'].
    exfalso. apply (findById_None g x E r'); [|assumption].
    eapply Permutation_in; [apply Permutation_sym|]; eauto.
Qed.

Lemma loop_perm (g g' : list RevisionInfo) (a : RevisionInfo) (fuel : nat)
    (cur : option RevisionInfo) :
  NoDup (map id g) -> Permutation g g' ->
  isAncestor_loop g' fuel a cur = isAncestor_loop g fuel a cur.
Proof.
  intros ND P. revert cur. induction fuel as [|fuel IH]; intros cur;
    [reflexivity|].
  rewrite !loop_S.
  assert (E : isAncestor_body g' a cur = isAncestor_body g a cur).
  { unfold isAncestor_body. destruct cur as [c|]; [|reflexivity].
    destruct (downRevision c) as [d|]; [|reflexivity].
    now rewrite (findById_perm g g' d ND P). }
  rewrite E. destruct (isAncestor_body g a cur); auto.
Qed.

(** *** No record is its own ancestor on a walk that ends *)

Lemma walk_period (g : list RevisionInfo) (p : nat)
    (cur : option RevisionInfo) :
  walk g p cur = cur -> forall n, walk g (n * p) cur = cur.
Proof.
  intros H n. induction n as [|n IH]; [reflexivity|].
  simpl. now rewrite walk_add, H.
Qed.

Lemma not_reaches_self (g : list RevisionInfo) (a : RevisionInfo) :
  NoDup (map id g) -> In a g -> walkEnds g a -> ~ reaches g a a.
Proof.
  intros ND Hin (K & HK) (j & c & Hw & Hd & Ht).
  assert (Hp : walk g (j + 1) (Some a) = Some a).
  { rewrite walk_add, Hw. simpl. rewrite Hd, Ht. now apply findById_In. }
  pose proof (walk_period g (j + 1) (Some a) Hp K) as HKp.
  rewrite (walk_None_le g K (K * (j + 1)) (Some a) HK) in HKp by nia.
  discriminate.
Qed.

(** *** [isApplied] *)

Section Applied.
Variable g : list RevisionInfo.
Variable n : RevisionInfo.

Lemma array_some_true (A : Type) (f : A -> option bool) (l : list A) :
  array_some f l = Some true -> exists x, In x l /\ f x = Some true.
Proof.
  induction l as [|x l IH]; simpl; [discriminate|].
  destruct (f x) as [[|]|] eqn:E; try discriminate.
  - intros _. eauto.
  - intros H. destruct (IH H) as (y & Hy & Ey). eauto.
Qed.

Lemma array_some_false (A : Type) (f : A -> option bool) (l : list A) :
  array_some f l = Some false -> forall x, In x l -> f x = Some false.
Proof.
  induction l as [|x l IH]; simpl; [contradiction|].
  destruct (f x) as [[|]|] eqn:E; try discriminate.
  intros H y [<-|Hy]; auto.
Qed.

Lemma array_some_total (A : Type) (f : A -> option bool) (l : list A) :
  (forall x, In x l -> exists r, f x = Some r) ->
  exists r, array_some f l = Some r.
Proof.
  induction l as [|x l IH]; simpl; intros H; [eauto|].
  destruct (H x (or_introl eq_refl)) as ([|] & E); rewrite E; eauto.
Qed.

(** One number of iterations that is enough for every current record. *)
Lemma common_fuel (l : list RevisionInfo) :
  (forall c, In c l -> isCurrent c = true -> terminates g n c) ->
  exists fuel, forall c, In c l -> isCurrent c = true ->
                         exists r, isAncestor g fuel n c = Some r.
Proof.
  induction l as [|x l IH]; intros H.
  - exists 0. contradiction.
  - destruct IH as (f1 & H1); [intros c Hc; apply H; now right|].
    destruct (isCurrent x) eqn:Ex.
    + destruct (H x (or_introl eq_refl) Ex) as (f2 & r & E2).
      exists (f1 + f2). intros c [<-|Hc] Hcur.
      * exists r. unfold isAncestor in *.
        eapply loop_fuel_mono; [exact E2 | lia].
      * destruct (H1 c Hc Hcur) as (r' & E'). exists r'.
        unfold isAncestor in *. eapply loop_fuel_mono; [exact E' | lia].
    + exists f1. intros c [<-|Hc] Hcur; [congruence | auto].
Qed.

Lemma isApplied_current (fuel : nat) :
  isCurrent n = true -> isApplied g fuel n = Some true.
Proof. unfold isApplied. now intros ->. Qed.

Lemma isApplied_true (fuel : nat) :
  isApplied g fuel n = Some true ->
  isCurrent n = true \/
  exists c, In c g /\ isCurrent c = true /\
            isAncestor g fuel n c = Some true.
Proof.
  unfold isApplied. destruct (isCurrent n); [auto|].
  intros H. right. apply array_some_true in H as (c & Hc & E).
  exists c. destruct (isCurrent c); [auto | discriminate].
Qed.

Lemma isApplied_false (fuel : nat) :
  isApplied g fuel n = Some false ->
  isCurrent n = false /\
  forall c, In c g -> isCurrent c = true ->
            isAncestor g fuel n c = Some false.
Proof.
  unfold isApplied. destruct (isCurrent n); [discriminate|].
  intros H. split; [reflexivity|]. intros c Hc Hcur.
  pose proof (array_some_false _ _ _ H c Hc) as E. simpl in E.
  now rewrite Hcur in E.
Qed.

Lemma isApplied_returns :
  (forall c, In c g -> isCurrent c = true -> terminates g n c) ->
  exists r, appliedIs g n r.
Proof.
  intros H. destruct (common_fuel g H) as (fuel & Hf).
  unfold appliedIs, isApplied. destruct (isCurrent n); [now exists true, 0|].
  destruct (array_some_total _
              (fun r => if isCurrent r then isAncestor g fuel n r
                        else Some false) g) as (r & E).
  - intros c Hc. destruct (isCurrent c) eqn:Ec; eauto.
  - exists r, fuel. exact E.
Qed.
End Applied.

End GraphFacts.
Import GraphFacts.

(* ================================================================= *)
(** ** The status listings *)

Module StatusFacts.

Lemma hex_at_None_iff (s : string) :
  hex_at s = None <->
  match s with EmptyString => True | String c _ => isHex c = false end.
Proof.
  unfold hex_at. destruct s as [|c s]; simpl; [tauto|].
  destruct (isHex c); [|tauto].
  destruct (span isHex s). simpl. split; discriminate.
Qed.

Lemma hex_at_run (t post : string) :
  t <> "" -> allb isHex t = true ->
  match post with EmptyString => True | String c _ => isHex c = false end ->
  hex_at (t ++ post) = Some t.
Proof.
  intros Hne Ht Hp. unfold hex_at. rewrite (span_app isHex t post Ht Hp).
  destruct t; [contradiction | reflexivity].
Qed.

Lemma hex_at_Some (s t : string) :
  hex_at s = Some t ->
  exists post, s = t ++ post /\ t <> "" /\ allb isHex t = true /\
    match post with EmptyString => True | String c _ => isHex c = false end.
Proof.
  unfold hex_at. destruct (span isHex s) as [h r] eqn:E.
  destruct (isEmpty h) eqn:He; [discriminate|].
  intros H; inversion H; subst. apply isEmpty_false in He.
  apply span_spec in E as (E1 & E2 & E3). exists r. auto.
Qed.

(** No start position inside [pre] matches exactly when [pre] has no
    character of the class. *)
Lemma no_hex_before (pre suf : string) :
  (forall p1 p2, pre = p1 ++ p2 -> p2 <> "" -> hex_at (p2 ++ suf) = None)
  <-> allb notHex pre = true.
Proof.
  induction pre as [|c pre IH]; simpl.
  - split; [reflexivity|]. intros _ [|? ?] p2; simpl; intros E;
      [subst; congruence | discriminate].
  - split.
    + intros H. apply andb_true_iff. split.
      * specialize (H "" (String c pre) eq_refl ltac:(discriminate)).
        apply hex_at_None_iff in H. simpl in H. unfold notHex. now rewrite H.
      * apply IH. intros p1 p2 E Hne.
        apply (H (String c p1) p2); [simpl; now rewrite E | assumption].
    + intros H. apply andb_true_iff in H as [Hc Hpre].
      intros [|d p1] p2; simpl; intros E Hne.
      * subst p2. apply hex_at_None_iff. simpl.
        unfold notHex in Hc. now destruct (isHex c).
      * inversion E; subst. apply (proj2 IH Hpre p1 p2 eq_refl Hne).
Qed.

Lemma hex_match_Some (line t : string) :
  hex_match line = Some t <-> firstHexRun line t.
Proof.
  unfold hex_match, firstHexRun. split.
  - destruct (search hex_at line) as [[pre x]|] eqn:E; [|discriminate].
    simpl. intros H; inversion H; subst.
    apply search_Some in E as (suf & -> & Hm & Hmin).
    apply hex_at_Some in Hm as (post & -> & Hne & Ht & Hp).
    exists pre, post. repeat split; auto.
    now apply (no_hex_before pre (t ++ post)).
  - intros (pre & post & -> & Hpre & Hne & Ht & Hp).
    rewrite (search_intro hex_at pre (t ++ post) t); [reflexivity | |].
    + now apply hex_at_run.
    + now apply no_hex_before.
Qed.

Lemma hex_match_None (line : string) :
  hex_match line = None <-> hasHex line = false.
Proof.
  unfold hex_match, hasHex. rewrite negb_false_iff. split.
  - destruct (search hex_at line) as [[pre x]|] eqn:E; [discriminate|].
    intros _. pose proof (search_None hex_at line E) as H.
    clear E. induction line as [|c line IH]; [reflexivity|]. simpl.
    apply andb_true_iff. split.
    + specialize (H "" (String c line) eq_refl).
      apply hex_at_None_iff in H. unfold notHex. now rewrite H.
    + apply IH. intros p1 p2 E. apply (H (String c p1) p2).
      simpl. now rewrite E.
  - intros H. destruct (search hex_at line) as [[pre x]|] eqn:E;
      [|reflexivity].
    exfalso. apply search_Some in E as (suf & -> & Hm & _).
    apply hex_at_Some in Hm as (post & -> & Hne & Ht & _).
    rewrite !allb_app in H. destruct x as [|c x]; [contradiction|].
    simpl in *. apply andb_true_iff in Ht as [Hc _].
    unfold notHex in H. rewrite Hc in H. simpl in H.
    now rewrite andb_false_r in H.
Qed.

Lemma collectRevisions_spec (lines : list string) :
  Forall2 firstHexRun (filter hasHex lines) (collectRevisions lines).
Proof.
  induction lines as [|line rest IH]; simpl; [constructor|].
  destruct (hex_match line) as [t|] eqn:E.
  - assert (Hh : hasHex line = true).
    { destruct (hasHex line) eqn:Hh; [reflexivity|].
      apply hex_match_None in Hh. congruence. }
    rewrite Hh. constructor; [now apply hex_match_Some | assumption].
  - apply hex_match_None in E. now rewrite E.
Qed.

End StatusFacts.
Import StatusFacts.

(* ================================================================= *)
(** ** The rewriting of the revision file *)

Module RewriteFacts.

Lemma app_eq_app (a b c d : string) :
  a ++ b = c ++ d ->
  (exists e, c = a ++ e /\ b = e ++ d) \/
  (exists e, a = c ++ e /\ d = e ++ b).
Proof.
  revert c. induction a as [|x a IH]; intros c H; simpl in H.
  - left. exists c. auto.
  - destruct c as [|y c]; simpl in H.
    + right. exists (String x a). auto.
    + inversion H; subst. destruct (IH c H2) as [(e & -> & ->)|(e & -> & ->)].
      * left. exists e. auto.
      * right. exists e. auto.
Qed.

Lemma app_inv_head (a b c : string) : a ++ b = a ++ c -> b = c.
Proof. induction a; simpl; intros H; [assumption | inversion H; auto]. Qed.

Lemma allb_suffix (p : ascii -> bool) (s a b : string) :
  allb p s = true -> s = a ++ b -> allb p b = true.
Proof.
  intros H ->. rewrite allb_app in H. now apply andb_true_iff in H.
Qed.

(** *** Searching from a line start *)

Section SearchBol.
Context {A : Type}.
Variable matcher : string -> option A.

Lemma search_bol_Some (s pre : string) (x : A) (bol : bool) :
  search_bol matcher bol s = Some (pre, x) ->
  exists suf, s = pre ++ suf /\ matcher suf = Some x /\
    bolAfter bol pre = true /\
    forall p1 p2, pre = p1 ++ p2 -> p2 <> "" -> bolAfter bol p1 = true ->
                  matcher (p2 ++ suf) = None.
Proof.
  revert pre bol. induction s as [|c s IH]; intros pre bol H.
  - simpl in H. destruct bol; [|discriminate].
    destruct (matcher "") eqn:Hm; [|discriminate].
    inversion H; subst. exists "". repeat split; auto.
    intros [|? ?] p2; simpl; intros E; [subst; congruence | discriminate].
  - simpl in H.
    destruct (if bol then matcher (String c s) else None) eqn:Hm.
    + inversion H; subst. destruct bol; [|discriminate].
      exists (String c s). repeat split; auto.
      intros [|? ?] p2; simpl; intros E; [subst; congruence | discriminate].
    + destruct (search_bol matcher (isLineTerminator c) s)
        as [[pre' x']|] eqn:Hs; [|discriminate].
      inversion H; subst.
      destruct (IH pre' _ Hs) as (suf & E & Hx & Hb & Hmin).
      exists suf. subst s. repeat split; auto.
      intros [|d p1] p2; simpl; intros E2 Hne Hbol.
      * subst p2 bol. exact Hm.
      * inversion E2; subst. now apply (Hmin p1 p2).
Qed.

Lemma search_bol_intro (pre suf : string) (x : A) (bol : bool) :
  matcher suf = Some x -> bolAfter bol pre = true ->
  (forall p1 p2, pre = p1 ++ p2 -> p2 <> "" -> bolAfter bol p1 = true ->
                 matcher (p2 ++ suf) = None) ->
  search_bol matcher bol (pre ++ suf) = Some (pre, x).
Proof.
  intros Hx. revert bol. induction pre as [|c pre IH]; intros bol Hb Hmin.
  - simpl in Hb. subst bol. destruct suf; simpl; now rewrite Hx.
  - simpl.
    assert (H0 : (if bol then matcher (String c (pre ++ suf)) else None)
                 = None).
    { destruct bol; [|reflexivity].
      apply (Hmin "" (String c pre) eq_refl); [discriminate | reflexivity]. }
    rewrite H0. rewrite IH; [reflexivity | exact Hb |].
    intros p1 p2 E Hne Hbol. apply (Hmin (String c p1) p2); auto.
    simpl. now rewrite E.
Qed.
End SearchBol.

(** *** The pattern of the [Revises:] line *)

Lemma revises_at_Some (s m rest : string) :
  revises_at s = Some (m, rest) ->
  s = m ++ rest /\ String.prefix "Revises:" m = true /\
  match rest with
  | EmptyString => True
  | String c _ => isLineTerminator c = true
  end.
Proof.
  unfold revises_at. destruct (strip "Revises:" s) as [r|] eqn:E;
    [|discriminate].
  apply strip_spec in E. subst s.
  destruct (span isSpace r) as [ws r1] eqn:E1.
  destruct (span isDot r1) as [line r2] eqn:E2.
  intros H; inversion H; subst.
  apply span_spec in E1 as (-> & _ & _).
  apply span_spec in E2 as (-> & _ & Hr).
  split; [|split].
  - simpl. now rewrite !append_assoc.
  - apply prefix_strip. exists (ws ++ line). reflexivity.
  - destruct rest as [|c rest]; [exact I|].
    unfold isDot in Hr. now apply negb_false_iff in Hr.
Qed.

Lemma revises_at_None (s : string) :
  revises_at s = None <-> strip "Revises:" s = None.
Proof.
  unfold revises_at. destruct (strip "Revises:" s) as [r|]; [|tauto].
  destruct (span isSpace r) as [ws r1]. destruct (span isDot r1).
  split; discriminate.
Qed.

(** Whether a literal matches depends on as many characters only. *)
Lemma strip_None_indep (p a x y : string) :
  String.length p <= String.length a ->
  strip p (a ++ x) = None -> strip p (a ++ y) = None.
Proof.
  revert a. induction p as [|c p IH]; intros a L H; simpl in *;
    [discriminate|].
  destruct a as [|d a]; simpl in *; [lia|].
  destruct (Ascii.eqb c d); [|reflexivity].
  apply IH; [lia | assumption].
Qed.

(** *** The pattern of the quoted assignment *)

Lemma quote_not_space (q : ascii) : isQuote q = true -> isSpace q = false.
Proof.
  unfold isQuote. intros H. apply orb_true_iff in H as [H|H];
    apply Ascii.eqb_eq in H; subst; reflexivity.
Qed.

(** Concatenations are compared in right-nested form. *)
Ltac app_norm := repeat first [rewrite append_assoc | progress simpl].

Lemma head_app (ws1 ws2 : string) (q1 : ascii) (t : string) :
  assignmentHead ws1 ws2 q1 ++ t
  = "down_revision" ++ ws1 ++ String "="%char (ws2 ++ String q1 t).
Proof. unfold assignmentHead. app_norm. reflexivity. Qed.

Lemma down_revision_at_Some (s m rest : string) :
  down_revision_at s = Some (m, rest) ->
  exists ws1 ws2 q1 body q2,
    m = assignmentHead ws1 ws2 q1 ++ body ++ String q2 "" /\
    s = m ++ rest /\
    allb isSpace ws1 = true /\ allb isSpace ws2 = true /\
    isQuote q1 = true /\ allb notQuote body = true /\ isQuote q2 = true.
Proof.
  unfold down_revision_at.
  destruct (strip "down_revision" s) as [r|] eqn:E; [|discriminate].
  apply strip_spec in E. subst s.
  destruct (span isSpace r) as [ws1 r1] eqn:E1.
  apply span_spec in E1 as (-> & Hws1 & _).
  destruct r1 as [|c r2]; [discriminate|].
  destruct (Ascii.eqb_spec c "="%char) as [->|Hne].
  2:{ destruct c as [[] [] [] [] [] [] [] []]; try discriminate.
      congruence. }
  destruct (span isSpace r2) as [ws2 r3] eqn:E2.
  apply span_spec in E2 as (-> & Hws2 & _).
  destruct r3 as [|q1 r4]; [discriminate|].
  destruct (isQuote q1) eqn:Hq1; [|discriminate].
  destruct (span (fun c => negb (isQuote c)) r4) as [body r5] eqn:E3.
  apply span_spec in E3 as (-> & Hbody & _).
  destruct r5 as [|q2 r6]; [discriminate|].
  destruct (isQuote q2) eqn:Hq2; [|discriminate].
  intros H; inversion H; subst.
  exists ws1, ws2, q1, body, q2. rewrite head_app.
  repeat split; auto.
  app_norm. reflexivity.
Qed.

Lemma down_revision_at_intro (ws1 ws2 body rest : string) (q1 q2 : ascii) :
  allb isSpace ws1 = true -> allb isSpace ws2 = true ->
  isQuote q1 = true -> allb notQuote body = true -> isQuote q2 = true ->
  down_revision_at (assignmentHead ws1 ws2 q1 ++ body ++ String q2 rest)
  = Some (assignmentHead ws1 ws2 q1 ++ body ++ String q2 "", rest).
Proof.
  intros Hws1 Hws2 Hq1 Hbody Hq2. rewrite !head_app.
  unfold down_revision_at. rewrite strip_app.
  rewrite (span_app isSpace ws1 _ Hws1) by reflexivity.
  rewrite (span_app isSpace ws2 _ Hws2) by (now apply quote_not_space).
  rewrite Hq1.
  rewrite (span_app (fun c => negb (isQuote c)) body (String q2 rest) Hbody)
    by (simpl; now rewrite Hq2).
  now rewrite Hq2.
Qed.

Lemma hasQuote_split (s : string) :
  hasQuote s = true ->
  exists body q rest, s = body ++ String q rest /\
                      allb notQuote body = true /\ isQuote q = true.
Proof.
  unfold hasQuote. induction s as [|c s IH]; simpl; [discriminate|].
  destruct (isQuote c) eqn:Hc.
  - intros _. exists "", c, s. auto.
  - unfold notQuote at 1. rewrite Hc. simpl. intros H.
    destruct (IH H) as (body & q & rest & -> & Hb & Hq).
    exists (String c body), q, rest. simpl. unfold notQuote at 1.
    rewrite Hc. auto.
Qed.

Lemma hasQuote_app (a b : string) :
  hasQuote b = true -> hasQuote (a ++ b) = true.
Proof.
  unfold hasQuote. rewrite allb_app. intros H.
  apply negb_true_iff in H. rewrite H. now rewrite andb_false_r.
Qed.

Lemma hasQuote_app_l (a b : string) :
  hasQuote a = true -> hasQuote (a ++ b) = true.
Proof.
  unfold hasQuote. rewrite allb_app. intros H.
  apply negb_true_iff in H. now rewrite H.
Qed.

(** The head of a match has no inert character after its first one. *)
Lemma head_not_inert (ws1 ws2 : string) (q1 : ascii) (p e : string) :
  allb isSpace ws1 = true -> allb isSpace ws2 = true -> isQuote q1 = true ->
  assignmentHead ws1 ws2 q1 = p ++ e -> p <> "" -> startsInert e = false.
Proof.
  intros Hws1 Hws2 Hq1 E Hp.
  assert (Hsp : forall w, allb isSpace w = true ->
                          allb (fun c => negb (inert c)) w = true).
  { induction w as [|c w IH]; simpl; [reflexivity|]. intros H.
    apply andb_true_iff in H as [Hc Hw]. rewrite (IH Hw).
    unfold inert. now rewrite Hc. }
  assert (Hall : allb (fun c => negb (inert c))
                   ("own_revision" ++ ws1 ++
                    String "="%char (ws2 ++ String q1 "")) = true).
  { rewrite allb_app. apply andb_true_iff. split; [reflexivity|].
    rewrite allb_app, (Hsp ws1 Hws1). simpl.
    rewrite allb_app, (Hsp ws2 Hws2). simpl.
    unfold inert at 1. rewrite Hq1. simpl. now rewrite !andb_false_r. }
  destruct p as [|c p]; [contradiction|].
  unfold assignmentHead in E. simpl in E. inversion E as [[Hc E']].
  assert (He : allb (fun c => negb (inert c)) (p ++ e) = true)
    by (rewrite <- E'; exact Hall).
  rewrite allb_app in He. apply andb_true_iff in He as [_ He].
  destruct e as [|x e]; [reflexivity|]. simpl in *.
  apply andb_true_iff in He as [Hx _]. now apply negb_true_iff in Hx.
Qed.

(** A match that starts before inert text and runs into it also exists
    when other text with a quote is put there. *)
Lemma down_revision_at_cross (p x y : string) :
  p <> "" -> startsInert y = true -> hasQuote x = true ->
  down_revision_at (p ++ x) = None -> down_revision_at (p ++ y) = None.
Proof.
  intros Hp Hy Hx Hnone.
  destruct (down_revision_at (p ++ y)) as [[m rest]|] eqn:E; [|reflexivity].
  exfalso.
  apply down_revision_at_Some in E
    as (ws1 & ws2 & q1 & body & q2 & -> & E & Hws1 & Hws2 & Hq1 & Hb & Hq2).
  rewrite !append_assoc in E.
  assert (Hpe : exists e, p = assignmentHead ws1 ws2 q1 ++ e).
  { apply app_eq_app in E as [(e & E1 & E2)|(e & E1 & E2)].
    - destruct e as [|c e].
      + exists "". now rewrite append_nil_r in *.
      + pose proof (head_not_inert ws1 ws2 q1 p (String c e)
                      Hws1 Hws2 Hq1 E1 Hp) as Hi.
        rewrite E2 in Hy. simpl in Hy, Hi. congruence.
    - eauto. }
  destruct Hpe as (e & ->).
  destruct (hasQuote_split (e ++ x) (hasQuote_app e x Hx))
    as (body' & q' & rest' & E' & Hb' & Hq').
  rewrite append_assoc, E' in Hnone.
  rewrite down_revision_at_intro in Hnone by assumption. discriminate.
Qed.

(** No match starts on a character other than [d]. *)
Lemma down_revision_at_first (c : ascii) (s : string) :
  Ascii.eqb c "d"%char = false -> down_revision_at (String c s) = None.
Proof.
  intros H. unfold down_revision_at.
  change (strip "down_revision" (String c s))
    with (if Ascii.eqb "d"%char c then strip "own_revision" s else None).
  rewrite Ascii.eqb_sym in H. now rewrite H.
Qed.

Lemma startsInert_app (a b : string) :
  startsInert a = true -> startsInert (a ++ b) = true.
Proof. destruct a; simpl; [discriminate | auto]. Qed.

Lemma down_revision_at_notD (r z : string) :
  allb notD r = true -> r <> "" -> down_revision_at (r ++ z) = None.
Proof.
  destruct r as [|c r]; [contradiction|]. simpl. intros H _.
  apply andb_true_iff in H as [Hc _]. apply down_revision_at_first.
  unfold notD in Hc. now apply negb_true_iff in Hc.
Qed.

(** Text that sits where a match of the [Revises:] pattern was hides no
    earlier match of the assignment pattern: if the first assignment of
    [u ++ m ++ w ++ d ++ b] is [d], no match starts inside [u ++ r ++ w]
    when [x] is put after it. *)
Lemma no_assignment_before (u m w d b r x : string) :
  (forall p1 p2, u ++ m ++ w = p1 ++ p2 -> p2 <> "" ->
                 down_revision_at (p2 ++ d ++ b) = None) ->
  hasQuote (d ++ b) = true ->
  r <> "" -> allb notD r = true -> startsInert r = true ->
  startsInert x = true ->
  forall p1 p2, u ++ r ++ w = p1 ++ p2 -> p2 <> "" ->
                down_revision_at (p2 ++ x) = None.
Proof.
  intros Hmin Hq Hr HnotD Hri Hx p1 p2 E Hp2.
  assert (Hw : forall w1, w = w1 ++ p2 ->
                          down_revision_at (p2 ++ x) = None).
  { intros w1 Ew. apply (down_revision_at_cross p2 (d ++ b) x); auto.
    apply (Hmin (u ++ m ++ w1) p2); [|assumption].
    rewrite Ew. now rewrite !append_assoc. }
  assert (Hin : forall r1 r2, r = r1 ++ r2 -> r2 <> "" -> p2 = r2 ++ w ->
                              down_revision_at (p2 ++ x) = None).
  { intros r1 r2 Er Hr2 ->. rewrite append_assoc.
    apply down_revision_at_notD; [|assumption].
    now apply (allb_suffix notD r r1 r2). }
  apply app_eq_app in E as [(e & -> & E)|(e & Eu & ->)].
  - apply app_eq_app in E as [(e' & Ee & Ew)|(e' & Er & Ep)].
    + now apply (Hw e').
    + destruct e' as [|c e'].
      * apply (Hw ""). now rewrite Ep.
      * apply (Hin e (String c e')); [assumption | discriminate | assumption].
  - destruct e as [|c e].
    + apply (Hin "" r); auto.
    + rewrite !append_assoc.
      apply (down_revision_at_cross (String c e) (m ++ w ++ d ++ b)).
      * discriminate.
      * now apply startsInert_app.
      * now apply hasQuote_app, hasQuote_app.
      * replace (String c e ++ m ++ w ++ d ++ b)
          with ((String c e ++ m ++ w) ++ d ++ b)
          by (now rewrite !append_assoc).
        apply (Hmin p1 (String c e ++ m ++ w)); [|discriminate].
        rewrite Eu. now rewrite !append_assoc.
Qed.

(** The [Revises:] pattern finds its match at the same place when the
    match is replaced by text that starts with [Revises:]. *)
Lemma no_revises_before (u m rest rest' : string) :
  String.prefix "Revises:" m = true ->
  (forall p1 p2, u = p1 ++ p2 -> p2 <> "" -> bolAfter true p1 = true ->
                 revises_at (p2 ++ m ++ rest) = None) ->
  forall p1 p2, u = p1 ++ p2 -> p2 <> "" -> bolAfter true p1 = true ->
                revises_at (p2 ++ "Revises:" ++ rest') = None.
Proof.
  intros Hm Hmin p1 p2 E Hp2 Hbol.
  apply prefix_strip in Hm as (m' & Hm). apply strip_spec in Hm. subst m.
  specialize (Hmin p1 p2 E Hp2 Hbol). apply revises_at_None in Hmin.
  apply revises_at_None.
  replace (p2 ++ "Revises:" ++ rest') with ((p2 ++ "Revises:") ++ rest')
    by (now rewrite append_assoc).
  apply (strip_None_indep _ _ (m' ++ rest)).
  - clear. induction p2 as [|c p2 IH]; simpl in *; lia.
  - rewrite <- Hmin. f_equal. now rewrite !append_assoc.
Qed.

(** *** The branch of the root sentinel *)

Section Root.
Variables (text u m w d b : string).
Hypothesis HR : firstRevises text u m (w ++ d ++ b).
Hypothesis HA : firstAssignment text (u ++ m ++ w) d b.


Lemma root_assignment :
  down_revision_at (d ++ b) = Some (d, b) /\ startsInert d = true /\
  hasQuote (d ++ b) = true.
Proof.
  apply search_Some in HA as (suf & E & Hm & _).
  pose proof Hm as Hm'.
  apply down_revision_at_Some in Hm
    as (ws1 & ws2 & q1 & body & q2 & Ed & -> & _ & _ & _ & _ & Hq2).
  split; [assumption|]. subst d. split; [reflexivity|].
  rewrite !append_assoc. apply hasQuote_app, hasQuote_app.
  unfold hasQuote. simpl. unfold notQuote at 1. now rewrite Hq2.
Qed.

Lemma root_minimal :
  forall p1 p2, u ++ m ++ w = p1 ++ p2 -> p2 <> "" ->
                down_revision_at (p2 ++ d ++ b) = None.
Proof.
  apply search_Some in HA as (suf & E & Hm & Hmin).
  apply down_revision_at_Some in Hm
    as (ws1 & ws2 & q1 & body & q2 & _ & -> & _).
  intros p1 p2 E' Hp2. now apply (Hmin p1 p2).
Qed.

(** The text after the [Revises:] match starts with a line break. *)
Lemma root_gap : exists c w', w = String c w' /\ isLineTerminator c = true.
Proof.
  destruct root_assignment as (_ & Hd & _).
  pose proof HR as H.
  apply search_bol_Some in H as (suf & _ & Hm & _).
  apply revises_at_Some in Hm as (_ & _ & Hrest).
  destruct w as [|c w']; [|simpl in Hrest; eauto].
  exfalso. simpl in Hrest. destruct d as [|c d']; [discriminate|].
  simpl in *. unfold inert in Hd. unfold isLineTerminator in Hrest.
  apply orb_true_iff in Hrest as [H|H]; apply Ascii.eqb_eq in H; subst c;
    discriminate.
Qed.

(** The first replacement of the [Revises:] line by [Revises: ] and a
    sentinel [s], and what the second one finds. *)
Lemma root_revises_at (s x : string) :
  allb isDot s = true -> startsInert s = true ->
  revises_at (("Revises: " ++ s) ++ w ++ x) = Some ("Revises: " ++ s, w ++ x).
Proof.
  intros Hs Hi. destruct root_gap as (c & w' & -> & Hc).
  unfold revises_at. rewrite append_assoc.
  change ("Revises: " ++ s ++ String c w' ++ x)
    with ("Revises:" ++ String " "%char (s ++ String c w' ++ x)).
  rewrite strip_app.
  assert (E1 : span isSpace (String " "%char (s ++ String c w' ++ x))
               = (String " "%char "", s ++ String c w' ++ x)).
  { apply (span_app isSpace (String " "%char "")); [reflexivity|].
    destruct s as [|a s]; [discriminate|]. simpl in *.
    unfold inert in Hi. now destruct (isSpace a). }
  rewrite E1.
  assert (E2 : span isDot (s ++ String c w' ++ x) = (s, String c w' ++ x)).
  { apply span_app; [assumption|]. simpl. unfold isDot. now rewrite Hc. }
  rewrite E2. reflexivity.
Qed.

Lemma root_search_revises (s x : string) :
  allb isDot s = true -> startsInert s = true ->
  search_bol revises_at true (u ++ ("Revises: " ++ s) ++ w ++ x)
  = Some (u, ("Revises: " ++ s, w ++ x)).
Proof.
  intros Hs Hi. pose proof HR as H.
  apply search_bol_Some in H as (suf & _ & Hm & Hbol & Hmin).
  apply revises_at_Some in Hm as (-> & Hpre & _).
  apply search_bol_intro; [now apply root_revises_at | assumption |].
  intros p1 p2 E Hp2 Hb. rewrite !append_assoc.
  change ("Revises: " ++ s ++ w ++ x)
    with ("Revises:" ++ String " "%char (s ++ w ++ x)).
  now apply (no_revises_before u m (w ++ d ++ b) _ Hpre Hmin p1 p2).
Qed.

Lemma root_search_assignment (r d' : string) :
  r <> "" -> allb notD r = true -> startsInert r = true ->
  startsInert d' = true ->
  down_revision_at (d' ++ b) = Some (d', b) ->
  search down_revision_at (u ++ r ++ w ++ d' ++ b)
  = Some (u ++ r ++ w, (d', b)).
Proof.
  intros Hr HnotD Hri Hd' Hm.
  replace (u ++ r ++ w ++ d' ++ b) with ((u ++ r ++ w) ++ d' ++ b)
    by (now rewrite !append_assoc).
  apply search_intro; [assumption|].
  destruct root_assignment as (_ & _ & Hq).
  apply (no_assignment_before u m w d b r (d' ++ b) root_minimal Hq);
    auto.
  now apply startsInert_app.
Qed.

(** A replacement text without [$] is inserted as it is. *)
Lemma substitution_plain (repl pre matched post : string) :
  allb (fun c => negb (Ascii.eqb c "$"%char)) repl = true ->
  substitution repl pre matched post = repl.
Proof.
  induction repl as [|c repl IH]; simpl; [reflexivity|].
  intros H. apply andb_true_iff in H as [Hc H].
  destruct c as [[] [] [] [] [] [] [] []]; try discriminate Hc;
    now rewrite (IH H).
Qed.

Lemma modifyDependency_root (s : string) :
  rootSentinel s ->
  modifyDependency text s
  = u ++ "Revises:" ++ w ++ "down_revision = None" ++ b.
Proof.
  intros Hs.
  set (dm := "down_revision = " ++ String DQUOTE (s ++ String DQUOTE "")).
  destruct root_assignment as (Hd & Hdi & _).
  assert (E1 : replace_revises ("Revises: " ++ s) text
               = u ++ ("Revises: " ++ s) ++ w ++ d ++ b).
  { unfold replace_revises. unfold firstRevises in HR. rewrite HR.
    rewrite substitution_plain; [reflexivity|].
    destruct Hs as [-> | ->]; reflexivity. }
  assert (E2 : replace_down_revision dm
                 (u ++ ("Revises: " ++ s) ++ w ++ d ++ b)
               = u ++ ("Revises: " ++ s) ++ w ++ dm ++ b).
  { unfold replace_down_revision.
    rewrite (root_search_assignment ("Revises: " ++ s) d); auto.
    - rewrite substitution_plain; [now rewrite !append_assoc|].
      subst dm. destruct Hs as [-> | ->]; reflexivity.
    - discriminate.
    - destruct Hs as [-> | ->]; reflexivity. }
  assert (E3 : replace_revises "Revises:"
                 (u ++ ("Revises: " ++ s) ++ w ++ dm ++ b)
               = u ++ "Revises:" ++ w ++ dm ++ b).
  { unfold replace_revises. rewrite root_search_revises.
    - reflexivity.
    - destruct Hs as [-> | ->]; reflexivity.
    - destruct Hs as [-> | ->]; reflexivity. }
  assert (E4 : replace_down_revision "down_revision = None"
                 (u ++ "Revises:" ++ w ++ dm ++ b)
               = u ++ "Revises:" ++ w ++ "down_revision = None" ++ b).
  { unfold replace_down_revision.
    rewrite (root_search_assignment "Revises:" dm).
    - rewrite substitution_plain by reflexivity. now rewrite !append_assoc.
    - discriminate.
    - reflexivity.
    - reflexivity.
    - reflexivity.
    - subst dm. destruct Hs as [-> | ->]; reflexivity. }
  unfold modifyDependency. fold dm. rewrite E1, E2.
  assert (Eb : String.eqb s "<base>" || String.eqb s "None" = true)
    by (destruct Hs as [-> | ->]; reflexivity).
  rewrite Eb. now rewrite E3, E4.
Qed.
End Root.

End RewriteFacts.
Import RewriteFacts.

(* ================================================================= *)
(** ** The properties of the specification *)

Module Claims.

(** *** Ancestor test and cycles *)

Lemma cyclic_walk_stays (fuel : nat) :
  isAncestor_loop cyclicGraph fuel (node "bb" None false)
                  (Some (node "aa" (Some "aa") false)) = None.
Proof. induction fuel as [|fuel IH]; [reflexivity | exact IH]. Qed.

(** C1, as stated, fails: the history [cyclicHistory] builds the graph
    [cyclicGraph], in which [aa] is its own parent, and the ancestor test
    of [bb] against [aa] returns after no number of iterations: the loop
    has no bound and no visited set. *)
Lemma isAncestor_cycle_never_returns :
  parseHistory [] [] cyclicHistory = cyclicGraph /\
  ~ terminates cyclicGraph (node "bb" None false)
               (node "aa" (Some "aa") false).
Proof.
  split; [reflexivity|].
  intros (fuel & r & H). unfold isAncestor in H.
  rewrite cyclic_walk_stays in H. discriminate.
Qed.

(** C1, amended: on every graph the ancestor test [isAncestor(a, b)]
    returns exactly when the walk from [b] along [downRevision] reaches a
    record whose parent is [a] or ends (at a record without a parent or
    at a parent identifier that no record carries); it returns [true]
    exactly in the first case, and [false] only when the walk ends
    without reaching [a]. *)
Theorem isAncestor_returns_iff (g : list RevisionInfo) (a b : RevisionInfo) :
  (terminates g a b <-> reaches g a b \/ walkEnds g b) /\
  ((exists fuel, isAncestor g fuel a b = Some true) <-> reaches g a b) /\
  (forall fuel, isAncestor g fuel a b = Some false ->
                walkEnds g b /\ ~ reaches g a b).
Proof.
  split; [apply terminates_iff|]. split; [apply true_iff_reaches|].
  intros fuel. apply false_ends.
Qed.

Lemma isAncestor_returns_iff_witness :
  walkEnds linearGraph linearC3 /\ terminates linearGraph linearA1 linearC3.
Proof.
  assert (H : walkEnds linearGraph linearC3) by (exists 3; reflexivity).
  split; [exact H|].
  apply (proj1 (isAncestor_returns_iff linearGraph linearA1 linearC3)).
  right. exact H.
Defined.

(** *** Status listings *)

(** C2, as stated, fails: of the two tokens of the line [ab cd] only the
    first is collected, and a token listed on two lines is collected
    twice. *)
Lemma status_tokens_first_only_and_repeated :
  parseCurrentRevisions "ab cd" = ["ab"] /\
  ~ In "cd" (parseHeadRevisions "ab cd") /\
  ~ NoDup (parseCurrentRevisions (join_lines ["ab"; "ab"])).
Proof.
  split; [reflexivity|]. split.
  - simpl. intros [H|[]]. discriminate.
  - intros H. inversion H as [|x l Hnot _]; subst.
    apply Hnot. now left.
Qed.

(** C2, amended: for every blob, [parseCurrentRevisions] and
    [parseHeadRevisions] return, in the order of the lines, one entry for
    every line that has a character of [[a-f0-9]]: the first maximal run
    of such characters of that line.  Later tokens of a line are not
    collected and repeated tokens are kept; the result is an array, used
    later through [includes] only. *)
Theorem status_first_run_per_line (output : string) :
  Forall2 firstHexRun (filter hasHex (split_lines output))
          (parseCurrentRevisions output) /\
  Forall2 firstHexRun (filter hasHex (split_lines output))
          (parseHeadRevisions output).
Proof. split; apply collectRevisions_spec. Qed.

(** *** Status flags of the records *)

(** C5: the flags [isCurrent] and [isHead] of a finished record are the
    membership of its [id] in the current and head listings, for every
    accumulator, whatever hints the header line left in it, and so for
    every record of a parse. *)
Theorem status_from_listings (cur heads : list string) :
  (forall partial,
     let n := completeRevisionInfo partial cur heads in
     (isCurrent n = true <-> In (id n) cur) /\
     (isHead n = true <-> In (id n) heads)) /\
  (forall i s m l d c h g a t c' h',
     completeRevisionInfo (mkPartial i s m l d c h g a t) cur heads
     = completeRevisionInfo (mkPartial i s m l d c' h' g a t) cur heads) /\
  (forall output,
     Forall (fun n => (isCurrent n = true <-> In (id n) cur) /\
                      (isHead n = true <-> In (id n) heads))
            (parseHistory cur heads output)).
Proof.
  split; [|split].
  - intros partial. simpl. split; apply array_includes_In.
  - reflexivity.
  - intros output.
    eapply Forall_impl; [|apply parseHistory_emitted].
    intros n (_ & _ & _ & Hc & Hh). rewrite Hc, Hh.
    split; apply array_includes_In.
Qed.

(** *** Header lines without an identifier *)

(** C6: when a line of the blob starts with [Rev:] and the header pattern
    rejects it, the result is the records of the lines after it followed
    by (the list is newest last) the records of the lines before it, each
    part parsed on its own: no record comes from the line, the record
    before it is finished as at the end of the input, and the records
    from the next header line on are those of the blob without the
    line. *)
Theorem malformed_header_skipped (cur heads : list string)
    (blob : string) (before after : list string) (h : string) :
  split_lines blob = (before ++ h :: after)%list ->
  malformedHeader h ->
  parseHistory cur heads blob
  = (rev (parseLines cur heads after)
       ++ rev (parseLines cur heads before))%list /\
  forall between next rest,
    after = (between ++ next :: rest)%list -> isHeader next = true ->
    parseLines cur heads (before ++ h :: after)
    = (parseLines cur heads before ++ parseLines cur heads between
         ++ parseLines cur heads (next :: rest))%list /\
    parseLines cur heads (before ++ after)
    = (parseLines cur heads (before ++ between)
         ++ parseLines cur heads (next :: rest))%list.
Proof.
  intros Hs Hm. split.
  - unfold parseHistory. rewrite Hs, parseLines_malformed by assumption.
    apply rev_app_distr.
  - intros between next rest -> Hn. split.
    + rewrite parseLines_malformed by assumption.
      now rewrite (parseLines_header cur heads between rest next).
    + rewrite app_assoc. now apply parseLines_header.
Qed.

Lemma malformed_header_skipped_witness :
  malformedHeader "Rev: (unknown)" /\
  parseHistory ["b2"] ["c3"] linearHistory = linearGraph.
Proof.
  assert (Hm : malformedHeader "Rev: (unknown)") by (split; reflexivity).
  split; [exact Hm|].
  rewrite (proj1 (malformed_header_skipped ["b2"] ["c3"] linearHistory
    ["Rev: c3 (head)"; "Parent: b2"; "Path: versions/c3.py";
     ""; "    third"; "";
     "Rev: b2"; "Parent: a1"; "Path: versions/b2.py";
     ""; "    second"; ""]
    ["    stray text";
     "Rev: a1"; "Parent: <base>"; "Path: versions/a1.py";
     ""; "    first"]
    "Rev: (unknown)" eq_refl Hm)).
  reflexivity.
Defined.

(** *** Identifiers of the records *)

(** C7, as stated, fails: a history that lists the identifier [aa] under
    two headers yields two records with that identifier. *)
Lemma parse_repeats_identifier :
  map id (parseHistory [] [] (join_lines ["Rev: aa"; "Rev: aa"]))
  = ["aa"; "aa"] /\
  ~ NoDup (map id (parseHistory [] [] (join_lines ["Rev: aa"; "Rev: aa"]))).
Proof.
  split; [reflexivity|].
  intros H. inversion H as [|x l Hnot _]; subst. apply Hnot. now left.
Qed.

(** C7, amended: every record of a parse has a non-empty [id] of
    characters [[a-f0-9]]; the identifiers of the records are those of the
    header lines of the blob, one record for each header line that the
    header pattern accepts, so they are pairwise distinct exactly when
    the header lines carry pairwise distinct identifiers. *)
Theorem parse_identifiers (cur heads : list string) (output : string) :
  Forall (fun n => id n <> "" /\ allb isHex (id n) = true)
         (parseHistory cur heads output) /\
  map id (parseHistory cur heads output)
  = rev (headerIds (split_lines output)) /\
  (NoDup (map id (parseHistory cur heads output)) <->
   NoDup (headerIds (split_lines output))).
Proof.
  assert (E : map id (parseHistory cur heads output)
              = rev (headerIds (split_lines output))).
  { unfold parseHistory. now rewrite map_rev, parseLines_ids. }
  split; [|split].
  - eapply Forall_impl; [|apply parseHistory_emitted].
    intros n (H1 & H2 & _). auto.
  - exact E.
  - rewrite E. split; intros H.
    + rewrite <- (rev_involutive (headerIds _)). now apply NoDup_rev.
    + now apply NoDup_rev.
Qed.

(** *** Short identifiers *)

(** C9: in every record of a parse [shortId] is the first eight
    characters of [id]: a prefix of [id] of length eight, or [id] itself
    when it is shorter. *)
Theorem shortId_is_prefix (cur heads : list string) (output : string) :
  Forall (fun n => shortId n = String.substring 0 8 (id n) /\
                   String.prefix (shortId n) (id n) = true /\
                   String.length (shortId n)
                   = Nat.min 8 (String.length (id n)) /\
                   (String.length (id n) <= 8 -> shortId n = id n))
         (parseHistory cur heads output).
Proof.
  eapply Forall_impl; [|apply parseHistory_emitted].
  intros n (_ & _ & Hs & _). rewrite Hs. repeat split.
  - apply take_prefix.
  - apply take_length.
  - apply take_all.
Qed.

(** *** Applied status *)

Lemma applied_walk_stays (fuel : nat) :
  isAncestor appliedGraph fuel (node "bb" None false)
             (node "aa" (Some "aa") true) = None.
Proof. induction fuel as [|fuel IH]; [reflexivity | exact IH]. Qed.

(** C4, as stated, fails: in the graph built from [appliedHistory] and
    [appliedCurrent] the current revision [cc] has [bb] as its parent,
    yet [isApplied(bb)] does not return [true]: it first runs the
    ancestor test against the current revision [aa], which is its own
    parent, and that test never returns. *)
Lemma isApplied_blocked_by_cycle :
  getHistory appliedHistory appliedCurrent "" = appliedGraph /\
  (exists c, In c appliedGraph /\ isCurrent c = true /\
             isAncestor appliedGraph 1 (node "bb" None false) c
             = Some true) /\
  ~ (exists r, appliedIs appliedGraph (node "bb" None false) r).
Proof.
  split; [reflexivity|]. split.
  - exists (node "cc" (Some "bb") true). simpl. auto.
  - intros (r & fuel & H). unfold isApplied, appliedGraph in H.
    simpl in H. fold appliedGraph in H.
    rewrite applied_walk_stays in H. discriminate.
Qed.

(** C4, amended: a current revision is applied on every graph, and on
    every graph on which the ancestor tests of [n] against the current
    revisions return (as they do when the walks from the current
    revisions end, so on every acyclic graph), [isApplied(n)] is [true]
    if and only if [n] is current or is an ancestor of some current
    revision, and [false] otherwise. *)
Theorem isApplied_iff (g : list RevisionInfo) (n : RevisionInfo) :
  (isCurrent n = true -> forall fuel, isApplied g fuel n = Some true) /\
  ((forall c, In c g -> isCurrent c = true -> terminates g n c) ->
   let applied :=
     isCurrent n = true \/
     exists c, In c g /\ isCurrent c = true /\
               exists fuel, isAncestor g fuel n c = Some true in
   (appliedIs g n true <-> applied) /\
   (appliedIs g n false <-> ~ applied)).
Proof.
  split; [intros H fuel; now apply isApplied_current|].
  intros Hterm applied.
  assert (Hsound : appliedIs g n true -> applied).
  { intros (fuel & H). apply isApplied_true in H as [H|(c & Hc & Hcur & H)].
    - now left.
    - right. exists c. eauto. }
  assert (Hfalse : appliedIs g n false -> ~ applied).
  { intros (fuel & H). apply isApplied_false in H as [Hn Hall].
    intros [Hcur|(c & Hc & Hcur & f & Ht)]; [congruence|].
    apply (false_ends g n c fuel (Hall c Hc Hcur)).
    apply true_iff_reaches. eauto. }
  destruct (isApplied_returns g n Hterm) as ([|] & Hr).
  - split; split; [exact Hsound | intros _; exact Hr | exact Hfalse |].
    intros Hno. exfalso. apply Hno, Hsound, Hr.
  - split; split; [exact Hsound | | exact Hfalse | intros _; exact Hr].
    intros Happ. exfalso. now apply (Hfalse Hr).
Qed.

Lemma isApplied_iff_witness :
  (forall c, In c linearGraph -> isCurrent c = true ->
             terminates linearGraph linearA1 c) /\
  appliedIs linearGraph linearA1 true /\
  appliedIs linearGraph linearC3 false.
Proof.
  assert (H : forall n c, In c linearGraph -> isCurrent c = true ->
                          terminates linearGraph n c).
  { intros n c [<-|[<-|[<-|[]]]] Hc; try discriminate Hc.
    apply terminates_iff. right. exists 2. reflexivity. }
  split; [apply H|]. split.
  - apply (proj2 (isApplied_iff linearGraph linearA1) (H linearA1)).
    right. exists linearB2. split; [simpl; auto|]. split; [reflexivity|].
    exists 1. reflexivity.
  - apply (proj2 (isApplied_iff linearGraph linearC3) (H linearC3)).
    intros [Hc|(c & [<-|[<-|[<-|[]]]] & Hc & fuel & Ha)];
      try discriminate Hc.
    destruct fuel as [|[|[|fuel]]]; discriminate Ha.
Defined.

(** *** Irreflexivity and order of the records *)

(** C8, as stated, fails: in the graph built from [selfLoopHistory] the
    revision [aa] is its own ancestor; and the graphs built from
    [duplicateHistory] and [duplicateHistory'], which hold the same
    records in two orders, disagree on whether [cc] is an ancestor of
    [dd], because the lookup of the identifier [aa] takes the first of
    the two records that carry it. *)
Lemma isAncestor_reflexive_and_order_dependent :
  (parseHistory [] [] selfLoopHistory = [node "aa" (Some "aa") false] /\
   isAncestor [node "aa" (Some "aa") false] 1
              (node "aa" (Some "aa") false) (node "aa" (Some "aa") false)
   = Some true) /\
  (parseHistory [] [] duplicateHistory = duplicateGraph /\
   parseHistory [] [] duplicateHistory' = duplicateGraph' /\
   Permutation duplicateGraph duplicateGraph' /\
   isAncestor duplicateGraph 2 (node "cc" None false)
              (node "dd" (Some "aa") false) = Some false /\
   isAncestor duplicateGraph' 2 (node "cc" None false)
              (node "dd" (Some "aa") false) = Some true).
Proof.
  repeat split; try reflexivity. apply perm_swap.
Qed.

(** C8, amended: for every graph whose records carry pairwise distinct
    identifiers, the ancestor test gives the same result, after every
    number of iterations, on every permutation of the records; and in
    such a graph no record [a] from which the walk along [downRevision]
    ends (as every walk does in an acyclic graph) is its own ancestor:
    [isAncestor(a, a)] returns [false]. *)
Theorem isAncestor_irreflexive_and_stable (g g' : list RevisionInfo) :
  NoDup (map id g) -> Permutation g g' ->
  (forall fuel a b, isAncestor g' fuel a b = isAncestor g fuel a b) /\
  (forall a, In a g -> walkEnds g a ->
             exists fuel, isAncestor g fuel a a = Some false).
Proof.
  intros ND P. split.
  - intros fuel a b. now apply loop_perm.
  - intros a Hin Hends.
    destruct (proj2 (terminates_iff g a a) (or_intror Hends))
      as (fuel & [|] & H); [|eauto].
    exfalso. apply (not_reaches_self g a ND Hin Hends).
    apply true_iff_reaches. eauto.
Qed.

Lemma isAncestor_irreflexive_and_stable_witness :
  NoDup (map id linearGraph) /\
  Permutation linearGraph (rev linearGraph) /\
  isAncestor (rev linearGraph) 3 linearA1 linearC3
  = isAncestor linearGraph 3 linearA1 linearC3 /\
  exists fuel, isAncestor linearGraph fuel linearB2 linearB2 = Some false.
Proof.
  assert (ND : NoDup (map id linearGraph)).
  { simpl. repeat constructor; simpl; intuition discriminate. }
  assert (P : Permutation linearGraph (rev linearGraph))
    by apply Permutation_rev.
  split; [exact ND|]. split; [exact P|].
  destruct (isAncestor_irreflexive_and_stable linearGraph (rev linearGraph)
              ND P) as [Hstable Hirr].
  split; [apply Hstable|].
  apply Hirr; [simpl; auto | exists 3; reflexivity].
Defined.

(** *** Rewriting to the root *)




(** *** A parent for a root revision *)

(** C10 and the code: in [bareRootFile] the [Revises:] line is empty and
    the next line is [down_revision = None]; with the new parent
    [fff000] the white space of the [Revises:] pattern runs over the line
    break and the rest of the pattern takes the next line, so the
    assignment is removed from the text instead of being left as it is.
    In [rootFile], which has the layout of Alembic's template, the line
    lost in the same way is [Create Date:]. *)
Theorem revises_pattern_takes_next_line :
  modifyDependency bareRootFile "fff000" = join_lines ["Revises: fff000"; ""]
  /\
  includes (modifyDependency bareRootFile "fff000") "down_revision" = false
  /\
  modifyDependency rootFile "fff000"
  = join_lines ["init"; ""; "Revision ID: abc123"; "Revises: fff000"; "";
                "revision = 'abc123'"; "down_revision = None"; ""].
Proof. repeat split; reflexivity. Qed.

End Claims.

(* ================================================================= *)
(** ** Further properties of the history parser *)

Module ParserMore.

Section Parser.
Variables cur heads : list string.

(** *** Log lines *)

Lemma prefix_first (p s : string) (a c : ascii) :
  String.prefix (String a p) (String c s) = true -> c = a.
Proof.
  simpl. destruct (Ascii.ascii_dec a c); [auto | discriminate].
Qed.

Lemma step_log (st : ParseState) (line : string) :
  isLogLine line = true -> step cur heads st line = st.
Proof.
  unfold isLogLine, step, startsWith. intros H.
  destruct (trim line) as [|c t]; [discriminate|].
  pose proof (prefix_first _ _ _ _ H) as ->.
  change (String.prefix "INFO " (String "I" t)) with
    (String.prefix "NFO " t) in *.
  simpl. rewrite H. simpl.
  now rewrite !andb_false_r.
Qed.

Lemma fold_log (lines : list string) (st : ParseState) :
  fold_left (step cur heads) (filter notLogLine lines) st
  = fold_left (step cur heads) lines st.
Proof.
  revert st. induction lines as [|l ls IH]; intros st; [reflexivity|].
  simpl. unfold notLogLine at 1. destruct (isLogLine l) eqn:E; simpl.
  - now rewrite step_log.
  - apply IH.
Qed.

(** *** Lines of a blob *)

Lemma split_lines_nonempty (s : string) : split_lines s <> [].
Proof.
  induction s as [|c s IH]; simpl; [discriminate|].
  destruct (Ascii.eqb c LF); [discriminate|].
  destruct (split_lines s); discriminate.
Qed.

Lemma split_lines_app (a b : string) :
  split_lines (a ++ String LF b) = (split_lines a ++ split_lines b)%list.
Proof.
  induction a as [|c a IH]; simpl.
  - reflexivity.
  - rewrite IH. destruct (Ascii.eqb c LF); [reflexivity|].
    pose proof (split_lines_nonempty a) as Hne.
    destruct (split_lines a) as [|l ls]; [contradiction | reflexivity].
Qed.

Lemma split_lines_notLF (s : string) :
  Forall (fun l => allb notLF l = true) (split_lines s).
Proof.
  induction s as [|c s IH]; simpl.
  - repeat constructor.
  - destruct (Ascii.eqb c LF) eqn:E; [constructor; auto|].
    pose proof (split_lines_nonempty s) as Hne.
    destruct (split_lines s) as [|l ls]; [contradiction|].
    inversion IH; subst. constructor; [|assumption].
    simpl. unfold notLF at 1. now rewrite E.
Qed.

Lemma split_lines_one (s : string) :
  allb notLF s = true -> split_lines s = [s].
Proof.
  induction s as [|c s IH]; simpl; [reflexivity|]. intros H.
  apply andb_true_iff in H as [Hc Hs]. unfold notLF in Hc.
  apply negb_true_iff in Hc. rewrite Hc, (IH Hs). reflexivity.
Qed.

(** *** Concatenated listings *)

Lemma parseHistory_append (a b : string) :
  startsWithHeader b ->
  parseHistory cur heads (a ++ String LF b)
  = (parseHistory cur heads b ++ parseHistory cur heads a)%list.
Proof.
  unfold startsWithHeader, parseHistory. intros H.
  rewrite split_lines_app.
  destruct (split_lines b) as [|h ys]; [contradiction|].
  rewrite parseLines_header by assumption. apply rev_app_distr.
Qed.

(** *** The parent of a record *)

Lemma parent_at_capture (s g : string) :
  parent_at s = Some g ->
  g = "<base>" \/ (g <> "" /\ allb isHex g = true).
Proof.
  unfold parent_at. destruct (strip "Parent: " s) as [r|]; [|discriminate].
  destruct (span isHex r) as [hex rest] eqn:E.
  destruct (isEmpty hex) eqn:He.
  - destruct (strip "<base>" r); [|discriminate].
    intros H; inversion H. now left.
  - intros H; inversion H; subst. right.
    apply isEmpty_false in He. apply span_spec in E. tauto.
Qed.

Lemma parent_match_capture (s g : string) :
  parent_match s = Some g ->
  g = "<base>" \/ (g <> "" /\ allb isHex g = true).
Proof.
  unfold parent_match.
  destruct (search parent_at s) as [[pre x]|] eqn:E; [|discriminate].
  simpl. intros H; inversion H; subst.
  apply search_Some in E as (suf & _ & Hm & _).
  now apply parent_at_capture in Hm.
Qed.

Lemma flush_parent (st : ParseState) :
  parentInvariant st ->
  Forall (fun r => parentOk (downRevision r)) (flush cur heads st).
Proof.
  intros [Hr Hp]. unfold flush.
  destruct (has_id (currentRevision st)); [|assumption].
  apply Forall_app. split; [assumption|]. constructor; [|constructor].
  simpl. now destruct (messageLines st).
Qed.

Lemma step_parent (st : ParseState) (line : string) :
  parentInvariant st -> parentInvariant (step cur heads st line).
Proof.
  intros Hinv. pose proof (flush_parent st Hinv) as Hf.
  destruct Hinv as [Hr Hp]. unfold step.
  destruct (startsWith (trim line) "Rev:").
  { split; [exact Hf|]. simpl. unfold startRevision.
    destruct (rev_match (trim line)) as [[? ?]|]; exact I. }
  destruct (startsWith (trim line) "Parent:").
  { destruct (parent_match (trim line)) as [g|] eqn:E; [|now split].
    split; [exact Hr|]. simpl.
    apply parent_match_capture in E as [->|[Hne Hhex]]; [exact I|].
    destruct (String.eqb g "<base>"); [exact I|]. simpl.
    destruct g as [|c g]; [contradiction|]. simpl.
    split; [discriminate | exact Hhex]. }
  step_cases; split; assumption.
Qed.

Lemma parseHistory_parent (output : string) :
  Forall (fun r => parentOk (downRevision r)) (parseHistory cur heads output).
Proof.
  unfold parseHistory. apply Forall_rev. unfold parseLines, scan.
  apply flush_parent.
  generalize (split_lines output). intros lines.
  assert (H : parentInvariant initialState) by (split; [constructor|exact I]).
  revert H. generalize initialState.
  induction lines as [|l ls IH]; simpl; intros st H; [assumption|].
  apply IH, step_parent, H.
Qed.

(** *** Branch labels *)

Lemma paren_at_shape (s m rest : string) :
  paren_at s = Some (m, rest) -> parenthesised m.
Proof.
  unfold paren_at. destruct s as [|c r]; [discriminate|].
  destruct (Ascii.eqb_spec c "("%char) as [->|Hne].
  2:{ destruct c as [[] [] [] [] [] [] [] []]; try discriminate.
      congruence. }
  destruct (span notRParen r) as [body r'] eqn:E.
  destruct (isEmpty body) eqn:He; [discriminate|].
  destruct r' as [|c' rest']; [discriminate|].
  destruct (Ascii.eqb_spec c' ")"%char) as [->|Hne].
  2:{ destruct c' as [[] [] [] [] [] [] [] []]; try discriminate.
      congruence. }
  intros H; inversion H; subst. exists body.
  apply isEmpty_false in He. apply span_spec in E. tauto.
Qed.

Lemma paren_all_shape (fuel : nat) (s : string) :
  Forall parenthesised (paren_all_from fuel s).
Proof.
  revert s. induction fuel as [|fuel IH]; intros s; simpl; [constructor|].
  destruct (search paren_at s) as [[pre [m rest]]|] eqn:E; [|constructor].
  constructor; [|apply IH].
  apply search_Some in E as (suf & _ & Hm & _).
  now apply paren_at_shape in Hm.
Qed.

Lemma dropLast_app (s : string) (c : ascii) :
  dropLast (s ++ String c "") = s.
Proof.
  induction s as [|x s IH]; simpl; [reflexivity|].
  rewrite IH. now destruct s.
Qed.

Lemma labels_ok (ms : list string) :
  Forall parenthesised ms ->
  Forall labelOk
    (filter (fun label => negb (String.eqb label "current") &&
                          negb (String.eqb label "head"))
            (map slice_1_m1 ms)).
Proof.
  induction 1 as [|m ms (body & -> & Hne & Hb) _ IH]; simpl; [constructor|].
  rewrite dropLast_app.
  destruct (String.eqb_spec body "current"); simpl; [exact IH|].
  destruct (String.eqb_spec body "head"); simpl; [exact IH|].
  constructor; [|exact IH]. repeat split; assumption.
Qed.

Lemma start_labels (t : string) :
  labelsOk (p_branchLabels (startRevision t)).
Proof.
  unfold startRevision.
  destruct (rev_match t) as [[hex status]|]; simpl; [|exact I].
  unfold paren_match_all.
  pose proof (paren_all_shape (String.length status) status) as H.
  destruct (paren_all_from (String.length status) status) as [|m ms];
    [constructor|].
  now apply labels_ok.
Qed.

Lemma flush_labels (st : ParseState) :
  labelInvariant st ->
  Forall (fun r => Forall labelOk (branchLabels r)) (flush cur heads st).
Proof.
  intros [Hr Hp]. unfold flush.
  destruct (has_id (currentRevision st)); [|assumption].
  apply Forall_app. split; [assumption|]. constructor; [|constructor].
  unfold labelsOk in Hp.
  destruct (messageLines st); simpl;
    destruct (p_branchLabels (currentRevision st)); auto.
Qed.

Lemma step_labels (st : ParseState) (line : string) :
  labelInvariant st -> labelInvariant (step cur heads st line).
Proof.
  intros Hinv. pose proof (flush_labels st Hinv) as Hf.
  destruct Hinv as [Hr Hp]. unfold step.
  destruct (startsWith (trim line) "Rev:").
  { split; [exact Hf | apply start_labels]. }
  step_cases; split; assumption.
Qed.

Lemma parseHistory_labels (output : string) :
  Forall (fun r => Forall labelOk (branchLabels r))
         (parseHistory cur heads output).
Proof.
  unfold parseHistory. apply Forall_rev. unfold parseLines, scan.
  apply flush_labels.
  generalize (split_lines output). intros lines.
  assert (H : labelInvariant initialState) by (split; [constructor|exact I]).
  revert H. generalize initialState.
  induction lines as [|l ls IH]; simpl; intros st H; [assumption|].
  apply IH, step_labels, H.
Qed.

(** *** Trimming *)

Lemma trimStart_fix (s : string) :
  match s with EmptyString => True | String c _ => isSpace c = false end ->
  trimStart s = s.
Proof. destruct s as [|c s]; simpl; [auto | now intros ->]. Qed.

Lemma trimStart_head (s : string) :
  match trimStart s with
  | EmptyString => True
  | String c _ => isSpace c = false
  end.
Proof.
  induction s as [|c s IH]; simpl; [exact I|].
  destruct (isSpace c) eqn:E; [exact IH | exact E].
Qed.

Lemma trimEnd_head (s : string) :
  match s with EmptyString => True | String c _ => isSpace c = false end ->
  match trimEnd s with
  | EmptyString => True
  | String c _ => isSpace c = false
  end.
Proof. destruct s as [|c s]; simpl; [auto|]. intros H. now rewrite H. Qed.

Lemma trimEnd_idem (s : string) : trimEnd (trimEnd s) = trimEnd s.
Proof.
  induction s as [|c s IH]; simpl; [reflexivity|].
  destruct (isSpace c && isEmpty (trimEnd s)) eqn:E; [reflexivity|].
  simpl. now rewrite IH, E.
Qed.

Lemma trim_trimStart (s : string) : trimStart (trim s) = trim s.
Proof. apply trimStart_fix, trimEnd_head, trimStart_head. Qed.

Lemma trim_trimEnd (s : string) : trimEnd (trim s) = trim s.
Proof. apply trimEnd_idem. Qed.

Lemma allb_trimStart (p : ascii -> bool) (s : string) :
  allb p s = true -> allb p (trimStart s) = true.
Proof.
  induction s as [|c s IH]; simpl; [auto|]. intros H.
  destruct (isSpace c); [|exact H].
  apply andb_true_iff in H as [_ H]. now apply IH.
Qed.

Lemma allb_trimEnd (p : ascii -> bool) (s : string) :
  allb p s = true -> allb p (trimEnd s) = true.
Proof.
  induction s as [|c s IH]; simpl; [auto|]. intros H.
  apply andb_true_iff in H as [Hc H].
  destruct (isSpace c && isEmpty (trimEnd s)); [reflexivity|].
  simpl. now rewrite Hc, IH.
Qed.

Lemma trimStart_app (a b : string) :
  a <> "" -> trimStart a = a -> trimStart (a ++ b) = a ++ b.
Proof.
  destruct a as [|c a]; [contradiction|]. simpl. intros _ H.
  destruct (isSpace c) eqn:E; [|reflexivity].
  exfalso. pose proof (trimStart_head a) as Hh. rewrite H in Hh.
  simpl in Hh. congruence.
Qed.

Lemma trimEnd_app (a b : string) :
  b <> "" -> trimEnd b = b -> trimEnd (a ++ b) = a ++ b.
Proof.
  intros Hne Hb. induction a as [|c a IH]; simpl; [exact Hb|].
  rewrite IH. destruct (a ++ b) eqn:E.
  - destruct a; simpl in E; [contradiction | discriminate].
  - now rewrite andb_false_r.
Qed.

(** *** Joining and splitting lines *)

Lemma join_cons (x y : string) (r : list string) :
  join_lines (x :: y :: r) = x ++ String LF (join_lines (y :: r)).
Proof. reflexivity. Qed.

Lemma join_plain (ms : list string) :
  ms <> [] -> Forall plainLine ms ->
  join_lines ms <> "" /\ trim (join_lines ms) = join_lines ms /\
  split_lines (join_lines ms) = ms.
Proof.
  intros Hne H.
  assert (G : join_lines ms <> "" /\ trimStart (join_lines ms) = join_lines ms
              /\ trimEnd (join_lines ms) = join_lines ms
              /\ split_lines (join_lines ms) = ms).
  { induction H as [|x ms (Hx & Hs & He & Hlf) Hms IH]; [contradiction|].
    destruct ms as [|y r].
    - simpl. repeat split; auto. now apply split_lines_one.
    - destruct IH as (I1 & I2 & I3 & I4); [discriminate|].
      rewrite join_cons. repeat split.
      + destruct x; [contradiction | discriminate].
      + now apply trimStart_app.
      + change (x ++ String LF (join_lines (y :: r)))
          with (x ++ nl ++ join_lines (y :: r)).
        rewrite <- append_assoc. now apply trimEnd_app.
      + rewrite split_lines_app, I4, (split_lines_one x Hlf). reflexivity. }
  destruct G as (G1 & G2 & G3 & G4). repeat split; auto.
  unfold trim. now rewrite G2.
Qed.

(** *** Messages *)

Section Messages.
Variable lines : list string.
Hypothesis lines_notLF : Forall (fun l => allb notLF l = true) lines.

Lemma messageLine_plain (t : string) : messageLine lines t -> plainLine t.
Proof.
  intros (Hne & (l & Hin & ->) & _). repeat split.
  - exact Hne.
  - apply trim_trimStart.
  - apply trim_trimEnd.
  - apply allb_trimEnd, allb_trimStart.
    now apply (proj1 (Forall_forall _ _) lines_notLF).
Qed.

Lemma flush_message (st : ParseState) :
  messageInvariant lines st ->
  Forall (fun r => messageOk lines (message r)) (flush cur heads st).
Proof.
  intros (Hr & Hp & Hm). unfold flush.
  destruct (has_id (currentRevision st)); [|assumption].
  apply Forall_app. split; [assumption|]. constructor; [|constructor].
  destruct (messageLines st) as [|x ms] eqn:E; simpl.
  - left. now rewrite Hp.
  - right.
    change (Forall (messageLine lines)
              (split_lines (or_empty (Some (trim (join_lines (x :: ms))))))).
    rewrite or_empty_Some.
    destruct (join_plain (x :: ms)) as (_ & Ht & Hs); [discriminate| |].
    + eapply Forall_impl; [|exact Hm]. apply messageLine_plain.
    + now rewrite Ht, Hs.
Qed.

Lemma step_message (st : ParseState) (line : string) :
  In line lines -> messageInvariant lines st ->
  messageInvariant lines (step cur heads st line).
Proof.
  intros Hin Hinv. pose proof (flush_message st Hinv) as Hf.
  destruct Hinv as (Hr & Hp & Hm). unfold step.
  assert (Ht : exists l, In l lines /\ trim line = trim l) by eauto.
  revert Ht. generalize (trim line). intros t Ht.
  destruct (startsWith t "Rev:") eqn:E1.
  { split; [exact Hf|]. split; [|constructor]. simpl. unfold startRevision.
    now destruct (rev_match t) as [[? ?]|]. }
  destruct (startsWith t "Parent:") eqn:E2.
  { destruct (parent_match t); repeat split; assumption. }
  destruct (startsWith t "Path:") eqn:E3; [repeat split; assumption|].
  destruct (startsWith t "Merge point:") eqn:E4;
    [repeat split; assumption|].
  destruct (startsWith t "Revision ID:" || startsWith t "Revises:" ||
            startsWith t "Create Date:") eqn:E5.
  { destruct (startsWith t "Create Date:"); [destruct (date_match t)|];
      repeat split; assumption. }
  apply orb_false_iff in E5 as [E5 E7].
  apply orb_false_iff in E5 as [E5 E6].
  assert (Hpush : truthy t = true -> startsWith t "INFO " = false ->
                  Forall (messageLine lines) (messageLines st ++ [t])).
  { intros Hne E8. apply Forall_app. split; [assumption|].
    constructor; [|constructor]. split; [now apply truthy_true|].
    split; [assumption|]. unfold keywords. repeat constructor; assumption. }
  destruct (truthy t) eqn:Et; destruct (inMessage st) eqn:Ei;
    destruct (startsWith t "INFO ") eqn:E8; simpl;
    repeat split; auto.
Qed.

Lemma fold_message (ls : list string) (st : ParseState) :
  incl ls lines -> messageInvariant lines st ->
  messageInvariant lines (fold_left (step cur heads) ls st).
Proof.
  revert st. induction ls as [|l ls IH]; simpl; intros st Hi H;
    [assumption|].
  apply IH.
  - intros x Hx. apply Hi. now right.
  - apply step_message; [apply Hi; now left | assumption].
Qed.
End Messages.

Lemma parseHistory_message (output : string) :
  Forall (fun r => messageOk (split_lines output) (message r))
         (parseHistory cur heads output).
Proof.
  unfold parseHistory. apply Forall_rev. unfold parseLines, scan.
  apply flush_message; [apply split_lines_notLF|].
  apply fold_message; [apply split_lines_notLF | apply incl_refl |].
  repeat split; constructor.
Qed.

End Parser.

End ParserMore.
Import ParserMore.

(* ================================================================= *)
(** ** Further properties of the queries and of the listings *)

Module GraphMore.

Lemma reaches_direct (g : list RevisionInfo) (p n : RevisionInfo) :
  downRevision n = Some (id p) -> id p <> "" -> reaches g p n.
Proof.
  intros Hd Hne. exists 0, n. simpl. repeat split; auto.
  now apply truthy_true.
Qed.

Lemma reaches_trans (g : list RevisionInfo) (a b c : RevisionInfo) :
  NoDup (map id g) -> In b g ->
  reaches g a b -> reaches g b c -> reaches g a c.
Proof.
  intros ND Hin (j & y & Hj & Hy) (k & x & Hk & Hx & Ht).
  exists (k + 1 + j), y. split; [|exact Hy].
  rewrite !walk_add, Hk. simpl. rewrite Hx, Ht.
  now rewrite (findById_In g b ND Hin).
Qed.

Lemma walkEnds_terminates (g : list RevisionInfo) (n : RevisionInfo) :
  (forall c, In c g -> isCurrent c = true -> walkEnds g c) ->
  forall c, In c g -> isCurrent c = true -> terminates g n c.
Proof.
  intros H c Hc Hcur. apply terminates_iff. right. now apply H.
Qed.

Lemma applied_reaches (g : list RevisionInfo) (n : RevisionInfo) :
  In n g -> appliedIs g n true ->
  exists c, In c g /\ isCurrent c = true /\ (c = n \/ reaches g n c).
Proof.
  intros Hin (fuel & H).
  apply isApplied_true in H as [H|(c & Hc & Hcur & H)].
  - exists n. auto.
  - exists c. repeat split; auto. right. apply true_iff_reaches. eauto.
Qed.

Lemma reaches_applied (g : list RevisionInfo) (p c : RevisionInfo) :
  (forall c, In c g -> isCurrent c = true -> walkEnds g c) ->
  In c g -> isCurrent c = true -> reaches g p c -> appliedIs g p true.
Proof.
  intros Hends Hc Hcur Hr.
  destruct (isApplied_returns g p (walkEnds_terminates g p Hends))
    as ([|] & fuel & H); [now exists fuel|].
  exfalso. apply isApplied_false in H as [_ Hall].
  now apply (false_ends g p c fuel (Hall c Hc Hcur)).
Qed.

Lemma collectRevisions_In (lines : list string) (t : string) :
  In t (collectRevisions lines) <->
  exists line, In line lines /\ firstHexRun line t.
Proof.
  induction lines as [|l ls IH]; simpl.
  - split; [contradiction | intros (? & [] & _)].
  - destruct (hex_match l) as [m|] eqn:E.
    + simpl. rewrite IH. split.
      * intros [<-|(line & Hl & Hf)].
        -- exists l. split; [now left | now apply hex_match_Some].
        -- exists line. auto.
      * intros (line & [<-|Hl] & Hf).
        -- left. apply hex_match_Some in Hf. congruence.
        -- right. eauto.
    + rewrite IH. split.
      * intros (line & Hl & Hf). eauto.
      * intros (line & [<-|Hl] & Hf); [|eauto].
        apply hex_match_Some in Hf. congruence.
Qed.

(** The identifiers of [linearGraph] are pairwise distinct. *)
Lemma linear_NoDup : NoDup (map id linearGraph).
Proof. simpl. repeat constructor; simpl; intuition discriminate. Defined.

End GraphMore.
Import GraphMore.

(* ================================================================= *)
(** ** The path of a revision file *)

Module ServiceMore.

Lemma path_at_Some (s p : string) :
  path_at s = Some p ->
  exists post, s = "Path: " ++ p ++ post /\ p <> "" /\
    allb isDot p = true /\
    match post with
    | EmptyString => True
    | String c _ => isLineTerminator c = true
    end.
Proof.
  unfold path_at. destruct (strip "Path: " s) as [r|] eqn:E; [|discriminate].
  apply strip_spec in E. subst s.
  destruct (span isDot r) as [q post] eqn:Es.
  destruct (isEmpty q) eqn:He; [discriminate|].
  intros H; inversion H; subst. apply isEmpty_false in He.
  apply span_spec in Es as (-> & Hq & Hpost). exists post.
  repeat split; auto. destruct post as [|c post]; [exact I|].
  unfold isDot in Hpost. now apply negb_false_iff in Hpost.
Qed.

Lemma path_at_intro (p post : string) :
  p <> "" -> allb isDot p = true ->
  match post with
  | EmptyString => True
  | String c _ => isLineTerminator c = true
  end ->
  path_at ("Path: " ++ p ++ post) = Some p.
Proof.
  intros Hne Hp Hpost. unfold path_at. rewrite strip_app.
  rewrite (span_app isDot p post Hp).
  - destruct p; [contradiction | reflexivity].
  - destruct post as [|c post]; [exact I|]. unfold isDot. now rewrite Hpost.
Qed.

Lemma includes_false (s sub p1 p2 : string) :
  includes s sub = false -> s = p1 ++ p2 -> String.prefix sub p2 = false.
Proof.
  revert s. induction p1 as [|c p1 IH]; intros s H E; simpl in E; subst s.
  - destruct p2; simpl in H; now apply orb_false_iff in H.
  - simpl in H. apply orb_false_iff in H as [_ H]. now apply (IH _ H).
Qed.

Lemma search_none_intro (A : Type) (matcher : string -> option A)
    (s : string) :
  (forall p1 p2, s = p1 ++ p2 -> matcher p2 = None) ->
  search matcher s = None.
Proof.
  induction s as [|c s IH]; intros H; simpl.
  - now rewrite (H "" "" eq_refl).
  - rewrite (H "" (String c s) eq_refl).
    rewrite IH; [reflexivity|].
    intros p1 p2 E. apply (H (String c p1) p2). simpl. now rewrite E.
Qed.

Lemma strip_prefix_false (p s : string) :
  String.prefix p s = false -> strip p s = None.
Proof.
  intros H. destruct (strip p s) as [r|] eqn:E; [|reflexivity].
  assert (Ht : String.prefix p s = true) by (apply prefix_strip; eauto).
  congruence.
Qed.

(** A match of [Path: ] cannot start in the text before a later
    [Path: ] and run into it. *)
Lemma path_straddle (p2 rest r : string) :
  p2 <> "" -> strip "Path: " (p2 ++ "Path: " ++ rest) = Some r ->
  String.prefix "Path: " p2 = true.
Proof.
  intros Hne H. apply prefix_strip.
  destruct p2 as [|c1 [|c2 [|c3 [|c4 [|c5 [|c6 p2]]]]]];
    [contradiction| | | | | |]; cbn [strip append] in H;
    repeat match type of H with
           | context [Ascii.eqb ?a ?b] =>
               destruct (Ascii.eqb_spec a b) as [e|e];
               [try discriminate e; try subst | discriminate H]
           end.
  simpl. eauto.
Qed.

End ServiceMore.
Import ServiceMore.

(* ================================================================= *)
(** ** Further properties of the rewriting *)

Module RewriteMore.

Lemma hex_char (c : ascii) :
  isHex c = true ->
  isSpace c = false /\ isQuote c = false /\ isDot c = true /\
  noDollar c = true /\ Ascii.eqb "o"%char c = false.
Proof.
  destruct c as [[] [] [] [] [] [] [] []]; intros H;
    try discriminate H; repeat split.
Qed.

Lemma hex_all (p : ascii -> bool) (s : string) :
  (forall c, isHex c = true -> p c = true) ->
  allb isHex s = true -> allb p s = true.
Proof.
  intros Hp. induction s as [|c s IH]; simpl; [auto|]. intros H.
  apply andb_true_iff in H as [Hc Hs]. now rewrite (Hp c Hc), IH.
Qed.


Lemma down_revision_at_d (c : ascii) (s : string) :
  Ascii.eqb "o"%char c = false ->
  down_revision_at (String "d"%char (String c s)) = None.
Proof.
  intros H. unfold down_revision_at.
  change (strip "down_revision" (String "d"%char (String c s)))
    with (if Ascii.eqb "o"%char c then strip "wn_revision" s else None).
  now rewrite H.
Qed.

(** No match of the assignment pattern starts inside an identifier that
    a line break follows. *)
Lemma no_assignment_in_hex (p z : string) (c : ascii) :
  allb isHex p = true -> p <> "" -> isLineTerminator c = true ->
  down_revision_at (p ++ String c z) = None.
Proof.
  intros Hp Hne Hc. destruct p as [|a p]; [contradiction|].
  simpl in Hp. apply andb_true_iff in Hp as [Ha Hp].
  destruct (Ascii.eqb_spec a "d"%char) as [->|Hd].
  - destruct p as [|a' p]; simpl.
    + apply down_revision_at_d.
      unfold isLineTerminator in Hc. apply orb_true_iff in Hc as [H|H];
        apply Ascii.eqb_eq in H; subst c; reflexivity.
    + apply down_revision_at_d. simpl in Hp.
      apply andb_true_iff in Hp as [Ha' _]. now apply hex_char in Ha'.
  - simpl. apply down_revision_at_first. now apply Ascii.eqb_neq.
Qed.

(** As [no_assignment_before], for any text [r] inside which no match
    starts. *)
Lemma no_assignment_around (u m w d b r x : string) :
  (forall p1 p2, u ++ m ++ w = p1 ++ p2 -> p2 <> "" ->
                 down_revision_at (p2 ++ d ++ b) = None) ->
  hasQuote (d ++ b) = true ->
  (forall r1 r2, r = r1 ++ r2 -> r2 <> "" ->
                 down_revision_at (r2 ++ w ++ x) = None) ->
  startsInert r = true -> startsInert x = true ->
  forall p1 p2, u ++ r ++ w = p1 ++ p2 -> p2 <> "" ->
                down_revision_at (p2 ++ x) = None.
Proof.
  intros Hmin Hq Hin Hri Hx p1 p2 E Hp2.
  assert (Hr : r <> "") by (destruct r; [discriminate | discriminate]).
  assert (Hw : forall w1, w = w1 ++ p2 ->
                          down_revision_at (p2 ++ x) = None).
  { intros w1 Ew. apply (down_revision_at_cross p2 (d ++ b) x); auto.
    apply (Hmin (u ++ m ++ w1) p2); [|assumption].
    rewrite Ew. now rewrite !append_assoc. }
  apply app_eq_app in E as [(e & -> & E)|(e & Eu & ->)].
  - apply app_eq_app in E as [(e' & Ee & Ew)|(e' & Er & Ep)].
    + now apply (Hw e').
    + destruct e' as [|c e'].
      * apply (Hw ""). now rewrite Ep.
      * subst p2. rewrite append_assoc.
        apply (Hin e (String c e')); [assumption | discriminate].
  - destruct e as [|c e].
    + simpl. rewrite append_assoc. apply (Hin "" r); auto.
    + rewrite !append_assoc.
      apply (down_revision_at_cross (String c e) (m ++ w ++ d ++ b)).
      * discriminate.
      * now apply startsInert_app.
      * now apply hasQuote_app, hasQuote_app.
      * replace (String c e ++ m ++ w ++ d ++ b)
          with ((String c e ++ m ++ w) ++ d ++ b)
          by (now rewrite !append_assoc).
        apply (Hmin p1 (String c e ++ m ++ w)); [|discriminate].
        rewrite Eu. now rewrite !append_assoc.
Qed.

Lemma assignmentOf_at (p b : string) :
  allb isHex p = true ->
  down_revision_at (assignmentOf p ++ b) = Some (assignmentOf p, b).
Proof.
  intros Hp.
  assert (Hq : allb notQuote p = true).
  { apply (hex_all notQuote p); [|assumption].
    intros c Hc. unfold notQuote. apply hex_char in Hc.
    destruct Hc as (_ & -> & _). reflexivity. }
  pose proof (down_revision_at_intro " " " " p b DQUOTE DQUOTE
                eq_refl eq_refl eq_refl Hq eq_refl) as H.
  unfold assignmentOf.
  replace (("down_revision = " ++ String DQUOTE (p ++ String DQUOTE ""))
             ++ b)
    with (assignmentHead " " " " DQUOTE ++ p ++ String DQUOTE b).
  - rewrite H. f_equal.
  - unfold assignmentHead. app_norm. reflexivity.
Qed.

Section Parent.
Variables (text u m w d b : string).
Hypothesis HR : firstRevises text u m (w ++ d ++ b).
Hypothesis HA : firstAssignment text (u ++ m ++ w) d b.

Lemma parent_inside (p x : string) :
  allb isHex p = true ->
  forall r1 r2, "Revises: " ++ p = r1 ++ r2 -> r2 <> "" ->
                down_revision_at (r2 ++ w ++ x) = None.
Proof.
  intros Hp r1 r2 E Hr2.
  destruct (root_gap text u m w d b HR HA) as (c & w' & -> & Hc).
  assert (Hsuf : forall q, allb isHex q = true -> q <> "" ->
                 down_revision_at (q ++ String c w' ++ x) = None).
  { intros q Hq Hne. now apply no_assignment_in_hex. }
  apply app_eq_app in E as [(e & _ & E)|(e & E & ->)].
  - apply Hsuf; [|assumption].
    now apply (allb_suffix isHex p e r2).
  - destruct e as [|a e].
    + apply Hsuf; [assumption | exact Hr2].
    + rewrite append_assoc. apply down_revision_at_notD; [|discriminate].
      now apply (allb_suffix notD "Revises: " r1 (String a e)).
Qed.

Lemma parent_search_assignment (p d' : string) :
  allb isHex p = true -> startsInert d' = true ->
  down_revision_at (d' ++ b) = Some (d', b) ->
  search down_revision_at (u ++ ("Revises: " ++ p) ++ w ++ d' ++ b)
  = Some (u ++ ("Revises: " ++ p) ++ w, (d', b)).
Proof.
  intros Hp Hd' Hm.
  replace (u ++ ("Revises: " ++ p) ++ w ++ d' ++ b)
    with ((u ++ ("Revises: " ++ p) ++ w) ++ d' ++ b)
    by (now rewrite !append_assoc).
  apply search_intro; [assumption|].
  destruct (root_assignment text u m w d b HR HA) as (_ & _ & Hq).
  apply (no_assignment_around u m w d b ("Revises: " ++ p) (d' ++ b)
           (root_minimal text u m w d b HA) Hq).
  - now apply parent_inside.
  - reflexivity.
  - now apply startsInert_app.
Qed.

Lemma parent_revises_at (p x : string) :
  hexId p ->
  revises_at (("Revises: " ++ p) ++ w ++ x) = Some ("Revises: " ++ p, w ++ x).
Proof.
  intros [Hne Hp]. destruct (root_gap text u m w d b HR HA)
    as (c & w' & -> & Hc).
  unfold revises_at. rewrite append_assoc.
  change ("Revises: " ++ p ++ String c w' ++ x)
    with ("Revises:" ++ String " "%char (p ++ String c w' ++ x)).
  rewrite strip_app.
  assert (E1 : span isSpace (String " "%char (p ++ String c w' ++ x))
               = (String " "%char "", p ++ String c w' ++ x)).
  { apply (span_app isSpace (String " "%char "")); [reflexivity|].
    destruct p as [|a p]; [contradiction|]. simpl in *.
    apply andb_true_iff in Hp as [Ha _]. now apply hex_char in Ha. }
  rewrite E1.
  assert (E2 : span isDot (p ++ String c w' ++ x) = (p, String c w' ++ x)).
  { apply span_app.
    - apply (hex_all isDot p); [|assumption].
      intros a Ha. now apply hex_char in Ha.
    - simpl. unfold isDot. now rewrite Hc. }
  rewrite E2. reflexivity.
Qed.

Lemma parent_search_revises (p x : string) :
  hexId p ->
  search_bol revises_at true (u ++ ("Revises: " ++ p) ++ w ++ x)
  = Some (u, ("Revises: " ++ p, w ++ x)).
Proof.
  intros Hp. pose proof HR as H.
  apply search_bol_Some in H as (suf & _ & Hm & Hbol & Hmin).
  apply revises_at_Some in Hm as (-> & Hpre & _).
  apply search_bol_intro; [now apply parent_revises_at | assumption |].
  intros p1 p2 E Hp2 Hb. rewrite !append_assoc.
  change ("Revises: " ++ p ++ w ++ x)
    with ("Revises:" ++ String " "%char (p ++ w ++ x)).
  now apply (no_revises_before u m (w ++ d ++ b) _ Hpre Hmin p1 p2).
Qed.

Lemma modifyDependency_parent (p : string) :
  hexId p -> modifyDependency text p = reparented u w b p.
Proof.
  intros Hid. pose proof Hid as [Hne Hp].
  destruct (root_assignment text u m w d b HR HA) as (Hd & Hdi & _).
  assert (Hdollar : allb noDollar p = true).
  { apply (hex_all noDollar p); [|assumption].
    intros c Hc. now apply hex_char in Hc. }
  assert (E1 : replace_revises ("Revises: " ++ p) text
               = u ++ ("Revises: " ++ p) ++ w ++ d ++ b).
  { unfold replace_revises. unfold firstRevises in HR. rewrite HR.
    rewrite substitution_plain; [reflexivity|].
    rewrite allb_app. apply andb_true_iff.
    split; [reflexivity | exact Hdollar]. }
  assert (E2 : replace_down_revision (assignmentOf p)
                 (u ++ ("Revises: " ++ p) ++ w ++ d ++ b)
               = u ++ ("Revises: " ++ p) ++ w ++ assignmentOf p ++ b).
  { unfold replace_down_revision.
    rewrite (parent_search_assignment p d); auto.
    rewrite substitution_plain; [now rewrite !append_assoc|].
    unfold assignmentOf. rewrite allb_app. apply andb_true_iff.
    split; [reflexivity|]. simpl. rewrite allb_app. apply andb_true_iff.
    split; [exact Hdollar | reflexivity]. }
  unfold modifyDependency. fold (assignmentOf p). rewrite E1, E2.
  assert (Eb : String.eqb p "<base>" || String.eqb p "None" = false).
  { apply orb_false_iff. split; apply String.eqb_neq; intros ->;
      discriminate Hp. }
  rewrite Eb. unfold reparented, assignmentOf. app_norm. reflexivity.
Qed.

(** The text written for a parent has the shape that the rewriting
    expects. *)
Lemma reparented_shape (p : string) :
  hexId p ->
  firstRevises (reparented u w b p) u ("Revises: " ++ p)
               (w ++ assignmentOf p ++ b) /\
  firstAssignment (reparented u w b p) (u ++ ("Revises: " ++ p) ++ w)
                  (assignmentOf p) b.
Proof.
  intros Hid. pose proof Hid as [Hne Hp].
  assert (E : reparented u w b p
              = u ++ ("Revises: " ++ p) ++ w ++ assignmentOf p ++ b).
  { unfold reparented, assignmentOf. app_norm. reflexivity. }
  rewrite E. split.
  - now apply parent_search_revises.
  - apply parent_search_assignment; [assumption | reflexivity |].
    now apply assignmentOf_at.
Qed.
End Parent.

(** *** A file without the two places *)

Lemma modifyDependency_untouched (text p : string) :
  includes text "Revises:" = false ->
  includes text "down_revision" = false ->
  modifyDependency text p = text.
Proof.
  intros H1 H2.
  assert (E1 : forall repl, replace_revises repl text = text).
  { intros repl. unfold replace_revises.
    destruct (search_bol revises_at true text) as [[pre [mm post]]|] eqn:E;
      [|reflexivity].
    exfalso. apply search_bol_Some in E as (suf & E & Hm & _).
    pose proof (includes_false text "Revises:" pre suf H1 E) as Hp.
    apply strip_prefix_false in Hp. apply revises_at_None in Hp.
    congruence. }
  assert (E2 : forall repl, replace_down_revision repl text = text).
  { intros repl. unfold replace_down_revision.
    rewrite (search_none_intro _ down_revision_at text); [reflexivity|].
    intros p1 p2 E.
    pose proof (includes_false text "down_revision" p1 p2 H2 E) as Hp.
    apply strip_prefix_false in Hp. unfold down_revision_at.
    now rewrite Hp. }
  unfold modifyDependency. rewrite !E1, !E2.
  destruct (String.eqb p "<base>" || String.eqb p "None");
    [now rewrite E1, E2 | reflexivity].
Qed.

End RewriteMore.
Import RewriteMore.

(* ================================================================= *)
(** ** Clicks in the webview *)

Module WebviewMore.

Section Clicks.
Variable P : RevisionInfo -> Prop.


End Clicks.

End WebviewMore.
Import WebviewMore.

(* ================================================================= *)
(** ** Facts about [renderSimpleGraph] *)

Module RenderMore.

Lemma setProperty_eq (A : Type) (o : JsObject A) (k : string) (v : A) :
  setProperty o k v k = Some v.
Proof. unfold setProperty. now rewrite String.eqb_refl. Qed.

Lemma setProperty_neq (A : Type) (o : JsObject A) (k k' : string) (v : A) :
  k' <> k -> setProperty o k v k' = o k'.
Proof.
  unfold setProperty. intros H.
  destruct (String.eqb_spec k' k); congruence.
Qed.

(** *** Levels *)

Lemma assignLevels_notin (m : nat) (l : list RevisionInfo) :
  forall i lv k, ~ In k (map id l) -> assignLevels m i l lv k = lv k.
Proof.
  induction l as [|r l IH]; intros i lv k H; simpl; auto.
  rewrite IH.
  - apply setProperty_neq. intros ->. apply H. now left.
  - intros Hin. apply H. now right.
Qed.

Lemma assignLevels_at (m : nat) (l1 : list RevisionInfo) :
  forall r l2 i lv,
    NoDup (map id (l1 ++ r :: l2)%list) ->
    assignLevels m i (l1 ++ r :: l2)%list lv (id r)
    = Some (m - (i + length l1)).
Proof.
  induction l1 as [|a l1 IH]; intros r l2 i lv ND.
  - simpl in *. inversion ND as [|x l Hnot _]; subst.
    rewrite assignLevels_notin by assumption.
    rewrite setProperty_eq. f_equal. lia.
  - simpl in *. inversion ND as [|x l _ ND']; subst.
    rewrite IH by assumption. f_equal. lia.
Qed.

(** *** [findIndex] *)

Lemma findIndex_None (l : list RevisionInfo) (k : string) :
  findIndex l k = None <-> ~ In k (map id l).
Proof.
  induction l as [|r l IH]; simpl.
  - tauto.
  - destruct (String.eqb_spec (id r) k) as [E|E].
    + split; [discriminate | intros H; exfalso; apply H; now left].
    + destruct (findIndex l k); simpl.
      * split; [discriminate|]. intros H.
        assert (H' : ~ In k (map id l)) by (intros Hin; apply H; now right).
        apply IH in H'. discriminate H'.
      * split; [|reflexivity]. intros _ [H|H]; [congruence|].
        now apply IH.
Qed.

Lemma findIndex_Some (l : list RevisionInfo) (k : string) :
  forall j, findIndex l k = Some j ->
            exists r, nth_error l j = Some r /\ id r = k.
Proof.
  induction l as [|a l IH]; simpl; intros j H; [discriminate|].
  destruct (String.eqb_spec (id a) k) as [E|E].
  - inversion H; subst. exists a. now split.
  - destruct (findIndex l k) as [j'|]; [|discriminate].
    simpl in H. inversion H; subst. simpl. now apply IH.
Qed.

Lemma findIndex_app_l (l1 l2 : list RevisionInfo) (k : string) (j : nat) :
  findIndex l1 k = Some j -> findIndex (l1 ++ l2)%list k = Some j.
Proof.
  revert j. induction l1 as [|a l1 IH]; simpl; intros j H; [discriminate|].
  destruct (String.eqb (id a) k); [exact H|].
  destruct (findIndex l1 k) as [j'|]; [|discriminate].
  now rewrite (IH j' eq_refl).
Qed.

Lemma findIndex_app_r (l1 l2 : list RevisionInfo) (k : string) :
  findIndex l1 k = None ->
  findIndex (l1 ++ l2)%list k
  = option_map (Nat.add (length l1)) (findIndex l2 k).
Proof.
  induction l1 as [|a l1 IH]; simpl; intros H.
  - now destruct (findIndex l2 k).
  - destruct (String.eqb (id a) k); [discriminate|].
    destruct (findIndex l1 k); [discriminate|].
    rewrite IH by reflexivity. now destruct (findIndex l2 k).
Qed.

Lemma nth_error_middle (A : Type) (l1 : list A) (x : A) (l2 : list A) :
  nth_error (l1 ++ x :: l2)%list (length l1) = Some x.
Proof. induction l1; simpl; auto. Qed.

Lemma fresh_in_prefix (done : list RevisionInfo) (r : RevisionInfo)
    (rest : list RevisionInfo) :
  NoDup (map id (done ++ r :: rest)%list) -> findIndex done (id r) = None.
Proof.
  intros ND. apply findIndex_None. rewrite map_app in ND. simpl in ND.
  apply NoDup_remove_2 in ND. intros H. apply ND. apply in_or_app.
  now left.
Qed.

(** *** One node *)

Lemma renderNodes_cons (g : list RevisionInfo) (lv : JsObject nat)
    (fuel i : nat) (r : RevisionInfo) (rest : list RevisionInfo)
    (np : JsObject Position) (ch : list Element) :
  renderNodes g lv fuel i (r :: rest) np ch
  = let '(np1, p) := place lv i np r in
    match className g fuel r with
    | None => (np1, Running)
    | Some _ =>
        match parentLine g np1 p r with
        | None => (np1, Thrown)
        | Some line =>
            renderNodes g lv fuel (S i) rest np1
                        (ch ++ line ++ [nodeElement p r])%list
        end
    end.
Proof. reflexivity. Qed.

Lemma place_spec (lv : JsObject nat) (i : nat) (np : JsObject Position)
    (r : RevisionInfo) (np1 : JsObject Position) (p : Position) :
  place lv i np r = (np1, p) ->
  np1 (id r) = Some p /\
  (forall k, k <> id r -> np1 k = np k) /\
  (forall k q, np k = Some q -> np1 k = Some q).
Proof.
  unfold place. destruct (np (id r)) as [q|] eqn:E; intros H;
    inversion H; subst; clear H.
  - repeat split; auto.
  - split; [apply setProperty_eq|]. split.
    + intros k Hk. now apply setProperty_neq.
    + intros k q Hq. rewrite setProperty_neq; [exact Hq|]. congruence.
Qed.

Lemma place_fresh (n : nat) (lv : JsObject nat) (i : nat)
    (np : JsObject Position) (r : RevisionInfo) :
  np (id r) = None -> lv (id r) = Some (n - i) ->
  place lv i np r
  = (setProperty np (id r) (defaultPosition n i), defaultPosition n i).
Proof. unfold place. intros -> ->. reflexivity. Qed.

Lemma className_None (g : list RevisionInfo) (fuel : nat) (r : RevisionInfo) :
  className g fuel r = None <->
  isCurrent r = false /\ isApplied g fuel r = None.
Proof.
  unfold className. destruct (isCurrent r); simpl.
  - split; [discriminate | intros [H _]; discriminate H].
  - destruct (isApplied g fuel r); split; try discriminate; auto.
    intros [_ H]. discriminate H.
Qed.

Lemma parentLine_boxes (g : list RevisionInfo) (np : JsObject Position)
    (p : Position) (r : RevisionInfo) (l : list Element) :
  parentLine g np p r = Some l -> boxes l = [].
Proof.
  unfold parentLine. intros H.
  destruct (downRevision r) as [d|]; [|now inversion H].
  destruct (truthy d); [|now inversion H].
  destruct (findIndex g d); [|now inversion H].
  destruct (np d); [|discriminate]. now inversion H.
Qed.

Lemma expectedLine_boxes (g : list RevisionInfo) (i : nat)
    (r : RevisionInfo) :
  boxes (expectedLine g i r) = [].
Proof.
  unfold expectedLine. destruct (downRevision r) as [d|]; [|reflexivity].
  destruct (truthy d); [|reflexivity].
  now destruct (findIndex g d).
Qed.

Lemma boxes_app (a b : list Element) :
  boxes (a ++ b)%list = (boxes a ++ boxes b)%list.
Proof. unfold boxes. apply flat_map_app. Qed.

Lemma boxes_node (p : Position) (r : RevisionInfo) :
  boxes [nodeElement p r] = [(id r, p)].
Proof. destruct p. reflexivity. Qed.

(** *** The positions stored during a first render *)

Lemma stored_empty (n : nat) : stored n [] emptyObject.
Proof. intros k. reflexivity. Qed.

Lemma stored_step (n : nat) (done : list RevisionInfo)
    (np : JsObject Position) (r : RevisionInfo) :
  stored n done np -> findIndex done (id r) = None ->
  stored n (done ++ [r])%list
         (setProperty np (id r) (defaultPosition n (length done))).
Proof.
  intros Hst Hfresh k. unfold setProperty.
  destruct (String.eqb_spec k (id r)) as [->|Hk].
  - rewrite findIndex_app_r by assumption. simpl.
    rewrite String.eqb_refl. simpl. now rewrite Nat.add_0_r.
  - rewrite Hst. destruct (findIndex done k) as [j|] eqn:E.
    + now rewrite (findIndex_app_l done [r] k j E).
    + rewrite findIndex_app_r by assumption. simpl.
      destruct (String.eqb_spec (id r) k); [congruence | reflexivity].
Qed.

Lemma line_expected (g done rest : list RevisionInfo)
    (np : JsObject Position) (r : RevisionInfo) (l : list Element) :
  g = (done ++ rest)%list -> stored (length g) done np ->
  forall i,
    parentLine g np (defaultPosition (length g) i) r = Some l ->
    l = expectedLine g i r.
Proof.
  intros Hg Hst i. unfold parentLine, expectedLine.
  destruct (downRevision r) as [d|]; [|now intros H; inversion H].
  destruct (truthy d); [|now intros H; inversion H].
  destruct (findIndex g d) as [j|] eqn:Hj; [|now intros H; inversion H].
  rewrite Hst. destruct (findIndex done d) as [j'|] eqn:Hj'; simpl;
    [|discriminate].
  intros H. inversion H; subst l; clear H.
  pose proof (findIndex_app_l done rest d j' Hj') as H'.
  rewrite <- Hg, Hj in H'. inversion H'; subst. reflexivity.
Qed.

(** *** A call that ends with a drawing *)

Lemma renderNodes_shape (g : list RevisionInfo) (fuel : nat) :
  NoDup (map id g) ->
  forall todo done np ch np' els,
    g = (done ++ todo)%list -> stored (length g) done np ->
    renderNodes g (assignLevels (length g) 0 g emptyObject) fuel
                (length done) todo np ch = (np', Drawn els) ->
    els = (ch ++ drawingFrom g (length done) todo)%list.
Proof.
  intros ND. induction todo as [|r rest IH];
    intros done np ch np' els Hg Hst Hr.
  - simpl in Hr. inversion Hr. simpl. now rewrite app_nil_r.
  - rewrite renderNodes_cons in Hr.
    assert (ND' : NoDup (map id (done ++ r :: rest)%list))
      by now rewrite <- Hg.
    pose proof (fresh_in_prefix done r rest ND') as Hfresh.
    assert (Hnp : np (id r) = None) by now rewrite Hst, Hfresh.
    assert (Hlev : assignLevels (length g) 0 g emptyObject (id r)
                   = Some (length g - length done)).
    { pose proof (assignLevels_at (length g) done r rest 0 emptyObject ND')
        as H. now rewrite <- Hg in H. }
    rewrite (place_fresh (length g) _ _ _ _ Hnp Hlev) in Hr.
    destruct (className g fuel r); [|discriminate Hr].
    pose proof (stored_step (length g) done np r Hst Hfresh) as Hst'.
    assert (Hg' : g = ((done ++ [r]) ++ rest)%list)
      by now rewrite <- app_assoc.
    destruct (parentLine g _ _ r) as [l|] eqn:Hl; [|discriminate Hr].
    apply (line_expected g (done ++ [r]) rest _ r l Hg' Hst') in Hl.
    replace (S (length done)) with (length (done ++ [r])%list) in Hr
      by (rewrite length_app; simpl; lia).
    apply (IH (done ++ [r])%list _ _ _ _ Hg' Hst') in Hr.
    rewrite Hr, Hl, length_app. simpl.
    replace (length done + 1) with (S (length done)) by lia.
    now rewrite <- !app_assoc.
Qed.

Lemma renderNodes_draws (g : list RevisionInfo) (fuel : nat)
    (lv : JsObject nat) :
  parentsFirst g ->
  (forall r, In r g -> className g fuel r <> None) ->
  forall todo done np ch,
    g = (done ++ todo)%list ->
    (forall r, In r done -> np (id r) <> None) ->
    exists np' els,
      renderNodes g lv fuel (length done) todo np ch = (np', Drawn els).
Proof.
  intros PF Hcl. induction todo as [|r rest IH]; intros done np ch Hg Hnp.
  - eexists. eexists. reflexivity.
  - rewrite renderNodes_cons.
    destruct (place lv (length done) np r) as [np1 p] eqn:Hp.
    apply place_spec in Hp as (Hself & _ & Hkeep).
    assert (Hnp1 : forall r', In r' (done ++ [r])%list ->
                              np1 (id r') <> None).
    { intros r' Hin. apply in_app_or in Hin as [Hin|[<-|[]]].
      - destruct (np (id r')) as [q|] eqn:E; [|now apply Hnp in Hin].
        now rewrite (Hkeep _ _ E).
      - now rewrite Hself. }
    destruct (className g fuel r) eqn:Hc.
    2:{ exfalso. apply (Hcl r); [|exact Hc]. rewrite Hg.
        apply in_or_app. right. now left. }
    destruct (parentLine g np1 p r) as [l|] eqn:Hl.
    + replace (S (length done)) with (length (done ++ [r])%list)
        by (rewrite length_app; simpl; lia).
      apply IH; [now rewrite <- app_assoc | exact Hnp1].
    + exfalso. unfold parentLine in Hl.
      destruct (downRevision r) as [d|] eqn:Hd; [|discriminate].
      destruct (truthy d); [|discriminate].
      destruct (findIndex g d) as [j|] eqn:Hj; [|discriminate].
      destruct (np1 d) eqn:Hn; [discriminate|].
      assert (Hr : nth_error g (length done) = Some r)
        by (rewrite Hg; apply nth_error_middle).
      pose proof (PF _ _ _ _ Hr Hd Hj) as Hle.
      apply findIndex_Some in Hj as (r' & Hr' & <-).
      apply (Hnp1 r'); [|exact Hn].
      assert (Hg' : g = ((done ++ [r]) ++ rest)%list)
        by now rewrite <- app_assoc.
      rewrite Hg' in Hr'. rewrite nth_error_app1 in Hr'
        by (rewrite length_app; simpl; lia).
      now apply nth_error_In in Hr'.
Qed.

(** *** Enough fuel for every call of [isApplied] *)

Lemma walks_end_together (g l : list RevisionInfo) :
  (forall c, In c l -> isCurrent c = true -> walkEnds g c) ->
  exists K, forall c, In c l -> isCurrent c = true ->
                      walk g K (Some c) = None.
Proof.
  induction l as [|a l IH]; intros H.
  - exists 0. intros c [].
  - destruct IH as [K HK]; [intros c Hc; apply H; now right|].
    destruct (isCurrent a) eqn:Ha.
    + destruct (H a (or_introl eq_refl) Ha) as [k Hk].
      exists (Nat.max K k). intros c [<-|Hc] Hcur.
      * apply (walk_None_le g k); [exact Hk | lia].
      * apply (walk_None_le g K); [now apply HK | lia].
    + exists K. intros c [<-|Hc] Hcur; [congruence | now apply HK].
Qed.

Lemma isApplied_uniform (g : list RevisionInfo) :
  (forall c, In c g -> isCurrent c = true -> walkEnds g c) ->
  exists fuel, forall n, exists r, isApplied g fuel n = Some r.
Proof.
  intros H. destruct (walks_end_together g g H) as [K HK].
  exists (S K). intros n. unfold isApplied.
  destruct (isCurrent n); [now exists true|].
  apply array_some_total. intros c Hc.
  destruct (isCurrent c) eqn:Hcur; [|now exists false].
  apply (ends_loop_returns g n K (Some c)). now apply HK.
Qed.

(** *** A parent that comes later *)

Lemma renderNodes_parent_later (g : list RevisionInfo) (lv : JsObject nat)
    (fuel : nat) (d : string) (r : RevisionInfo) (post : list RevisionInfo) :
  downRevision r = Some d -> truthy d = true -> findIndex g d <> None ->
  id r <> d ->
  forall pre i np ch,
    (forall r', In r' pre -> id r' <> d) -> np d = None ->
    notDrawn (snd (renderNodes g lv fuel i (pre ++ r :: post)%list np ch)) /\
    fst (renderNodes g lv fuel i (pre ++ r :: post)%list np ch) d = None.
Proof.
  intros Hd Ht Hf Hr. induction pre as [|a pre IH]; intros i np ch Hpre Hnp.
  - simpl app. rewrite renderNodes_cons.
    destruct (place lv i np r) as [np1 p] eqn:Hp.
    apply place_spec in Hp as (_ & Hother & _).
    assert (Hn : np1 d = None) by (rewrite Hother; congruence).
    destruct (className g fuel r); [|now split].
    unfold parentLine. rewrite Hd, Ht.
    destruct (findIndex g d); [|congruence]. rewrite Hn. now split.
  - simpl app. rewrite renderNodes_cons.
    destruct (place lv i np a) as [np1 p] eqn:Hp.
    apply place_spec in Hp as (_ & Hother & _).
    assert (Hn : np1 d = None).
    { rewrite Hother; [exact Hnp|]. intros E. apply (Hpre a); [now left|].
      congruence. }
    destruct (className g fuel a); [|now split].
    destruct (parentLine g np1 p a); [|now split].
    apply IH; [|exact Hn]. intros r' Hin. apply Hpre. now right.
Qed.

(** *** A call of [isApplied] that does not return *)

Lemma array_some_None (A : Type) (f : A -> option bool) (l : list A) :
  (forall x, In x l -> f x <> Some true) ->
  (exists x, In x l /\ f x = None) ->
  array_some f l = None.
Proof.
  induction l as [|a l IH]; intros H (x & Hin & Hx); [destruct Hin|].
  simpl. destruct (f a) as [[]|] eqn:E.
  - exfalso. apply (H a); [now left | exact E].
  - destruct Hin as [->|Hin]; [congruence|].
    apply IH; [intros y Hy; apply H; now right | now exists x].
  - reflexivity.
Qed.

Lemma isApplied_never (g : list RevisionInfo) (n c : RevisionInfo) :
  In c g -> isCurrent c = true -> isCurrent n = false ->
  ~ terminates g n c ->
  (forall c', In c' g -> isCurrent c' = true -> ~ reaches g n c') ->
  forall fuel, isApplied g fuel n = None.
Proof.
  intros Hc Hcur Hn Hnt Hnr fuel. unfold isApplied. rewrite Hn.
  apply array_some_None.
  - intros x Hx. destruct (isCurrent x) eqn:E; [|discriminate].
    intros H. apply (Hnr x Hx E). apply true_iff_reaches. now exists fuel.
  - exists c. split; [exact Hc|]. rewrite Hcur.
    destruct (isAncestor g fuel n c) as [r|] eqn:E; [|reflexivity].
    exfalso. apply Hnt. now exists fuel, r.
Qed.

Lemma renderNodes_waits (g : list RevisionInfo) (lv : JsObject nat)
    (fuel : nat) (n : RevisionInfo) :
  isCurrent n = false -> isApplied g fuel n = None ->
  forall todo i np ch,
    In n todo -> notDrawn (snd (renderNodes g lv fuel i todo np ch)).
Proof.
  intros Hn Ha. induction todo as [|a todo IH]; intros i np ch Hin;
    [destruct Hin|].
  rewrite renderNodes_cons. destruct (place lv i np a) as [np1 p].
  destruct Hin as [->|Hin].
  - rewrite (proj2 (className_None g fuel n) (conj Hn Ha)). exact I.
  - destruct (className g fuel a); [|exact I].
    destruct (parentLine g np1 p a); [|exact I].
    now apply IH.
Qed.

Lemma self_parent_stays (g : list RevisionInfo) (c : RevisionInfo) :
  findById g (id c) = Some c -> downRevision c = Some (id c) ->
  truthy (id c) = true ->
  forall k, walk g k (Some c) = Some c.
Proof.
  intros Hf Hd Ht. induction k as [|k IH]; [reflexivity|].
  simpl. now rewrite Hd, Ht, Hf.
Qed.

Lemma self_parent_never (g : list RevisionInfo) (n c : RevisionInfo) :
  findById g (id c) = Some c -> downRevision c = Some (id c) ->
  truthy (id c) = true -> id n <> id c ->
  ~ reaches g n c /\ ~ terminates g n c.
Proof.
  intros Hf Hd Ht Hne.
  assert (Hr : ~ reaches g n c).
  { intros (k & c' & Hw & Hd' & _).
    rewrite (self_parent_stays g c Hf Hd Ht) in Hw. congruence. }
  split; [exact Hr|]. intros H. apply terminates_iff in H as [H|[k H]].
  - now apply Hr.
  - rewrite (self_parent_stays g c Hf Hd Ht) in H. discriminate H.
Qed.

(** *** One position for an identifier *)

Lemma renderNodes_positions (g : list RevisionInfo) (lv : JsObject nat)
    (fuel : nat) :
  forall todo i np ch np' els,
    (forall b, In b (boxes ch) -> np (fst b) = Some (snd b)) ->
    renderNodes g lv fuel i todo np ch = (np', Drawn els) ->
    forall b, In b (boxes els) -> np' (fst b) = Some (snd b).
Proof.
  induction todo as [|r rest IH]; intros i np ch np' els Hch Hr.
  - simpl in Hr. inversion Hr; subst. exact Hch.
  - rewrite renderNodes_cons in Hr.
    destruct (place lv i np r) as [np1 p] eqn:Hp.
    apply place_spec in Hp as (Hself & _ & Hkeep).
    destruct (className g fuel r); [|discriminate Hr].
    destruct (parentLine g np1 p r) as [l|] eqn:Hl; [|discriminate Hr].
    apply (IH _ _ _ _ _ ) with (2 := Hr).
    intros b Hb. rewrite !boxes_app, (parentLine_boxes _ _ _ _ _ Hl),
      boxes_node in Hb. simpl in Hb.
    apply in_app_or in Hb as [Hb|[<-|[]]].
    + apply Hkeep. now apply Hch.
    + exact Hself.
Qed.

(** *** The rows of the default layout *)

Lemma boxes_drawingFrom (g : list RevisionInfo) :
  forall todo i j b,
    nth_error (boxes (drawingFrom g i todo)) j = Some b ->
    j < length todo /\ snd b = defaultPosition (length g) (i + j).
Proof.
  induction todo as [|r rest IH]; intros i j b H.
  - destruct j; discriminate H.
  - change (drawingFrom g i (r :: rest))
      with (expectedLine g i r
              ++ [nodeElement (defaultPosition (length g) i) r]
              ++ drawingFrom g (S i) rest)%list in H.
    rewrite !boxes_app, expectedLine_boxes, boxes_node in H.
    destruct j as [|j]; simpl in H.
    + inversion H; subst. simpl. split; [lia|]. now rewrite Nat.add_0_r.
    + apply IH in H as [Hlt Hb]. simpl. split; [lia|].
      rewrite Hb. f_equal. lia.
Qed.

End RenderMore.
Import RenderMore.

(* ================================================================= *)
(** ** Further properties of the code *)

Module Extras.

(** *** History parser *)

(** X1: lines of the logger (lines that start with [INFO ] once trimmed)
    do not take part in a parse: two listings that are equal up to such
    lines give the same records. *)
Theorem log_lines_ignored (cur heads : list string) (output output' : string) :
  filter notLogLine (split_lines output)
  = filter notLogLine (split_lines output') ->
  parseHistory cur heads output = parseHistory cur heads output'.
Proof.
  intros H. unfold parseHistory, parseLines, scan.
  rewrite <- (fold_log cur heads (split_lines output)).
  rewrite <- (fold_log cur heads (split_lines output')).
  now rewrite H.
Qed.

Lemma log_lines_ignored_witness :
  parseHistory ["b2"] ["c3"] noisyHistory
  = parseHistory ["b2"] ["c3"] linearHistory.
Proof.
  apply (log_lines_ignored ["b2"] ["c3"] noisyHistory linearHistory).
  vm_compute. reflexivity.
Defined.

(** X2: the records of a header do not depend on what comes before it:
    when a listing that starts with a header line is put on a new line
    after another listing, the parse of the whole is the parse of the
    second part followed by the parse of the first (the result lists the
    last header first). *)
Theorem listings_concatenate (cur heads : list string) (a b : string) :
  startsWithHeader b ->
  parseHistory cur heads (a ++ String LF b)
  = (parseHistory cur heads b ++ parseHistory cur heads a)%list.
Proof. apply parseHistory_append. Qed.

Lemma listings_concatenate_witness :
  startsWithHeader olderListing /\
  parseHistory ["b2"] ["c3"] (newerListing ++ String LF olderListing)
  = (parseHistory ["b2"] ["c3"] olderListing
       ++ parseHistory ["b2"] ["c3"] newerListing)%list.
Proof.
  assert (H : startsWithHeader olderListing) by reflexivity.
  split; [exact H|].
  exact (listings_concatenate ["b2"] ["c3"] newerListing olderListing H).
Defined.

(** X3: the [downRevision] of every record of a parse is [null] or a
    non-empty string of characters [[a-f0-9]]; it is never the empty
    string and never the marker [<base>]. *)
Theorem parents_are_identifiers (cur heads : list string) (output : string) :
  Forall (fun r => match downRevision r with
                   | None => True
                   | Some p => p <> "" /\ allb isHex p = true /\
                               p <> "<base>"
                   end)
         (parseHistory cur heads output).
Proof.
  eapply Forall_impl; [|apply parseHistory_parent].
  intros r H. unfold parentOk in H.
  destruct (downRevision r) as [p|]; [|exact I].
  destruct H as [Hne Hp]. repeat split; auto.
  intros ->. discriminate Hp.
Qed.

(** X4: every branch label of every record of a parse is non-empty, has
    no closing parenthesis, and is neither [current] nor [head]. *)
Theorem branch_labels_clean (cur heads : list string) (output : string) :
  Forall (fun r =>
            Forall (fun l => l <> "" /\ allb notRParen l = true /\
                             l <> "current" /\ l <> "head")
                   (branchLabels r))
         (parseHistory cur heads output).
Proof. apply parseHistory_labels. Qed.

(** X5: the message of every record of a parse is empty or consists of
    lines each of which is the trimmed form of a line of the listing, is
    not empty and starts with none of [Rev:], [Parent:], [Path:],
    [Merge point:], [Revision ID:], [Revises:], [Create Date:] and
    [INFO ]. *)
Theorem messages_hold_text_lines (cur heads : list string) (output : string) :
  Forall (fun r =>
            message r = "" \/
            Forall (fun t =>
                      t <> "" /\
                      (exists l, In l (split_lines output) /\ t = trim l) /\
                      Forall (fun k => startsWith t k = false) keywords)
                   (split_lines (message r)))
         (parseHistory cur heads output).
Proof. apply parseHistory_message. Qed.

(** *** Status of the records of [getHistory] *)

(** X6: a record returned by [getHistory] is current exactly when its
    [id] is the first run of characters [[a-f0-9]] of some line of the
    output of [alembic current], and a head exactly when it is that of
    some line of the output of [alembic heads]. *)
Theorem status_from_first_runs (historyOutput currentOutput headsOutput
                                : string) :
  Forall (fun n =>
            (isCurrent n = true <->
             exists line, In line (split_lines currentOutput) /\
                          firstHexRun line (id n)) /\
            (isHead n = true <->
             exists line, In line (split_lines headsOutput) /\
                          firstHexRun line (id n)))
         (getHistory historyOutput currentOutput headsOutput).
Proof.
  unfold getHistory.
  eapply Forall_impl; [|apply parseHistory_emitted].
  intros n (_ & _ & _ & Hc & Hh). rewrite Hc, Hh, !array_includes_In.
  unfold parseCurrentRevisions, parseHeadRevisions.
  split; apply collectRevisions_In.
Qed.

(** *** The path of a revision file *)

(** X7: [getRevisionFilePath] returns [null] when the command fails or
    its output has no [Path: ]; a path it returns is not empty, has no
    line break and is the text between an occurrence of [Path: ] and the
    end of that line, untrimmed; and it is that of the first [Path: ] of
    the output when text follows that one on its line. *)
Theorem revision_file_path :
  getRevisionFilePath None = None /\
  (forall output,
     includes output "Path: " = false ->
     getRevisionFilePath (Some output) = None) /\
  (forall output p,
     getRevisionFilePath (Some output) = Some p ->
     p <> "" /\ allb isDot p = true /\
     exists pre post,
       output = pre ++ "Path: " ++ p ++ post /\
       match post with
       | EmptyString => True
       | String c _ => isLineTerminator c = true
       end) /\
  (forall pre p post,
     includes pre "Path: " = false ->
     p <> "" -> allb isDot p = true ->
     match post with
     | EmptyString => True
     | String c _ => isLineTerminator c = true
     end ->
     getRevisionFilePath (Some (pre ++ "Path: " ++ p ++ post)) = Some p).
Proof.
  split; [reflexivity|]. split; [|split].
  - intros output H. unfold getRevisionFilePath.
    rewrite (search_none_intro _ path_at output); [reflexivity|].
    intros p1 p2 E. unfold path_at.
    now rewrite (strip_prefix_false _ _
                   (includes_false output "Path: " p1 p2 H E)).
  - intros output p. unfold getRevisionFilePath.
    destruct (search path_at output) as [[pre x]|] eqn:E; [|discriminate].
    simpl. intros H; inversion H; subst.
    apply search_Some in E as (suf & -> & Hm & _).
    apply path_at_Some in Hm as (post & -> & Hne & Hp & Hpost).
    repeat split; auto. exists pre, post. auto.
  - intros pre p post Hpre Hne Hp Hpost. unfold getRevisionFilePath.
    rewrite (search_intro path_at pre ("Path: " ++ p ++ post) p);
      [reflexivity | now apply path_at_intro |].
    intros p1 p2 E Hp2. unfold path_at.
    destruct (strip "Path: " (p2 ++ "Path: " ++ p ++ post)) as [r|] eqn:Es;
      [|reflexivity].
    exfalso. apply path_straddle in Es; [|assumption].
    pose proof (includes_false pre "Path: " p1 p2 Hpre E). congruence.
Qed.

Lemma revision_file_path_witness :
  getRevisionFilePath (Some showOutput)
  = Some "/srv/app/versions/def456_add_users.py".
Proof.
  apply (proj2 (proj2 (proj2 revision_file_path))
    (join_lines ["Rev: def456 (head)"; "Parent: abc123"; ""])
    "/srv/app/versions/def456_add_users.py"
    (join_lines [""; ""; "    add users"])).
  - reflexivity.
  - discriminate.
  - reflexivity.
  - reflexivity.
Defined.

(** *** Rewriting the revision file *)

(** X8: when the new parent is a non-empty identifier of characters
    [[a-f0-9]] and the first match of the [Revises:] pattern in the text
    comes before, and apart from, the first match of the pattern of the
    quoted assignment, the result is the text with the former replaced
    by [Revises: ] and the identifier and the latter by
    [down_revision = ] and the identifier in double quotes, and nothing
    else changed. *)
Theorem reparent_to_identifier (text u m w d b p : string) :
  hexId p ->
  firstRevises text u m (w ++ d ++ b) ->
  firstAssignment text (u ++ m ++ w) d b ->
  modifyDependency text p
  = u ++ "Revises: " ++ p ++ w ++
    "down_revision = " ++ String DQUOTE (p ++ String DQUOTE b).
Proof.
  intros Hp HR HA. now apply (modifyDependency_parent text u m w d b).
Qed.

Lemma reparent_to_identifier_witness :
  modifyDependency childFile "fff000"
  = join_lines ["add users"; ""; "Revision ID: def456"; "Revises: fff000";
                "Create Date: 2024-01-01 10:00:00"; "";
                "revision = 'def456'";
                "down_revision = " ++
                  String DQUOTE ("fff000" ++ String DQUOTE "");
                "branch_labels = None"].
Proof.
  assert (Hp : hexId "fff000") by (split; [discriminate | reflexivity]).
  rewrite (reparent_to_identifier childFile
    (join_lines ["add users"; ""; "Revision ID: def456"; ""])
    "Revises: abc123"
    (join_lines [""; "Create Date: 2024-01-01 10:00:00"; "";
                 "revision = 'def456'"; ""])
    "down_revision = 'abc123'"
    (join_lines [""; "branch_labels = None"])
    "fff000" Hp eq_refl eq_refl).
  reflexivity.
Defined.

(** X9: on such a text the last request wins: rewriting to an
    identifier [p1] and then to [p2], an identifier or a root sentinel,
    gives what rewriting to [p2] alone gives; in particular rewriting
    twice to the same identifier changes nothing more. *)
Theorem reparent_last_wins (text u m w d b p1 p2 : string) :
  hexId p1 -> hexId p2 \/ rootSentinel p2 ->
  firstRevises text u m (w ++ d ++ b) ->
  firstAssignment text (u ++ m ++ w) d b ->
  modifyDependency (modifyDependency text p1) p2 = modifyDependency text p2.
Proof.
  intros H1 H2 HR HA.
  rewrite (modifyDependency_parent text u m w d b HR HA p1 H1).
  destruct (reparented_shape text u m w d b HR HA p1 H1) as [HR' HA'].
  destruct H2 as [H2|H2].
  - rewrite (modifyDependency_parent _ u _ w _ b HR' HA' p2 H2).
    now rewrite (modifyDependency_parent text u m w d b HR HA p2 H2).
  - rewrite (modifyDependency_root _ u _ w _ b HR' HA' p2 H2).
    now rewrite (modifyDependency_root text u m w d b HR HA p2 H2).
Qed.

Lemma reparent_last_wins_witness :
  modifyDependency (modifyDependency childFile "fff000") "dead00"
  = modifyDependency childFile "dead00" /\
  modifyDependency (modifyDependency childFile "fff000") "<base>"
  = modifyDependency childFile "<base>".
Proof.
  assert (H1 : hexId "fff000") by (split; [discriminate | reflexivity]).
  assert (H2 : hexId "dead00") by (split; [discriminate | reflexivity]).
  split.
  - exact (reparent_last_wins childFile
      (join_lines ["add users"; ""; "Revision ID: def456"; ""])
      "Revises: abc123"
      (join_lines [""; "Create Date: 2024-01-01 10:00:00"; "";
                   "revision = 'def456'"; ""])
      "down_revision = 'abc123'"
      (join_lines [""; "branch_labels = None"])
      "fff000" "dead00" H1 (or_introl H2) eq_refl eq_refl).
  - exact (reparent_last_wins childFile
      (join_lines ["add users"; ""; "Revision ID: def456"; ""])
      "Revises: abc123"
      (join_lines [""; "Create Date: 2024-01-01 10:00:00"; "";
                   "revision = 'def456'"; ""])
      "down_revision = 'abc123'"
      (join_lines [""; "branch_labels = None"])
      "fff000" "<base>" H1 (or_intror (or_introl eq_refl)) eq_refl eq_refl).
Defined.

(** X10: a text in which neither [Revises:] nor [down_revision] occurs
    is returned as it is, whatever the new parent. *)
Theorem file_without_places_untouched (text p : string) :
  includes text "Revises:" = false ->
  includes text "down_revision" = false ->
  modifyDependency text p = text.
Proof. apply modifyDependency_untouched. Qed.

Lemma file_without_places_untouched_witness :
  modifyDependency "revision = 'abc123'" "$&" = "revision = 'abc123'".
Proof.
  exact (file_without_places_untouched "revision = 'abc123'" "$&"
           eq_refl eq_refl).
Defined.

(** *** Queries on the graph *)

(** X11: in a graph whose records carry pairwise distinct identifiers
    the ancestor test is transitive: when [a] is an ancestor of [b], a
    record of the graph, and [b] one of [c], then [a] is an ancestor of
    [c]. *)
Theorem isAncestor_transitive (g : list RevisionInfo) (a b c : RevisionInfo) :
  NoDup (map id g) -> In b g ->
  (exists fuel, isAncestor g fuel a b = Some true) ->
  (exists fuel, isAncestor g fuel b c = Some true) ->
  exists fuel, isAncestor g fuel a c = Some true.
Proof.
  intros ND Hin Hab Hbc. apply true_iff_reaches.
  apply true_iff_reaches in Hab. apply true_iff_reaches in Hbc.
  now apply (reaches_trans g a b c).
Qed.

Lemma isAncestor_transitive_witness :
  exists fuel, isAncestor linearGraph fuel linearA1 linearC3 = Some true.
Proof.
  apply (isAncestor_transitive linearGraph linearA1 linearB2 linearC3
           linear_NoDup).
  - simpl. auto.
  - exists 1. reflexivity.
  - exists 1. reflexivity.
Defined.

(** X12: in a graph whose records carry pairwise distinct identifiers
    and in which the walks from the current revisions end, every
    ancestor of an applied revision of the graph is applied. *)
Theorem ancestors_of_applied (g : list RevisionInfo) (n p : RevisionInfo) :
  NoDup (map id g) ->
  (forall c, In c g -> isCurrent c = true -> walkEnds g c) ->
  In n g -> appliedIs g n true ->
  (exists fuel, isAncestor g fuel p n = Some true) ->
  appliedIs g p true.
Proof.
  intros ND Hends Hin Happ Hanc. apply true_iff_reaches in Hanc.
  destruct (applied_reaches g n Hin Happ) as (c & Hc & Hcur & [->|Hr]).
  - now apply (reaches_applied g p n).
  - apply (reaches_applied g p c); auto.
    now apply (reaches_trans g p n c).
Qed.

Lemma ancestors_of_applied_witness : appliedIs linearGraph linearA1 true.
Proof.
  apply (ancestors_of_applied linearGraph linearB2 linearA1 linear_NoDup).
  - intros c [<-|[<-|[<-|[]]]] Hc; try discriminate Hc.
    exists 2. reflexivity.
  - simpl. auto.
  - exists 0. reflexivity.
  - exists 1. reflexivity.
Defined.

(** *** Clicks in the webview *)





(** *** Drawing the graph *)

(** X15: for the records of [getHistory], when the identifiers are
    pairwise distinct, the parent of every record that is in the graph is
    listed at or before the record, and the walks from the current
    revisions end, the first call of [renderSimpleGraph] (no position
    stored yet) ends with a drawing: every node at its default position,
    three columns 200 apart and one row of 100 per record with the last
    record on top, and a line for every record whose parent is in the
    graph, from the middle of the top of the parent's box to the middle
    of the bottom of its own. *)
Theorem first_render_draws (historyOutput currentOutput headsOutput : string) :
  let g := getHistory historyOutput currentOutput headsOutput in
  NoDup (map id g) -> parentsFirst g ->
  (forall c, In c g -> isCurrent c = true -> walkEnds g c) ->
  exists fuel,
    snd (renderSimpleGraph fuel g emptyObject) = Drawn (drawing g).
Proof.
  intros g ND PF Hends.
  destruct (isApplied_uniform g Hends) as [fuel Hfuel]. exists fuel.
  assert (Hcl : forall r, In r g -> className g fuel r <> None).
  { intros r _ H. apply className_None in H as [_ H].
    destruct (Hfuel r) as [b Hb]. congruence. }
  unfold renderSimpleGraph.
  destruct (renderNodes_draws g fuel
              (assignLevels (length g) 0 g emptyObject) PF Hcl g []
              emptyObject [] eq_refl) as (np' & els & Hr).
  { intros r []. }
  simpl length in Hr. rewrite Hr. simpl. f_equal.
  exact (renderNodes_shape g fuel ND g [] emptyObject [] np' els eq_refl
           (stored_empty (length g)) Hr).
Qed.

Lemma first_render_draws_witness :
  exists fuel,
    snd (renderSimpleGraph fuel (getHistory linearHistory "b2" "c3")
                           emptyObject)
    = Drawn (drawing (getHistory linearHistory "b2" "c3")).
Proof.
  assert (E : getHistory linearHistory "b2" "c3" = linearGraph)
    by (vm_compute; reflexivity).
  apply (first_render_draws linearHistory "b2" "c3"); rewrite E.
  - exact linear_NoDup.
  - intros i r d j Hi Hd Hj.
    destruct i as [|[|[|i]]]; simpl in Hi; inversion Hi; subst;
      simpl in Hd; inversion Hd; subst; vm_compute in Hj; inversion Hj;
      try lia.
    destruct i; discriminate.
  - intros c [<-|[<-|[<-|[]]]] Hc; try discriminate Hc.
    exists 2. reflexivity.
Defined.

(** X16: for the records of [getHistory] with pairwise distinct
    identifiers, whenever the first call of [renderSimpleGraph] ends with
    a drawing, the node of a later record lies at least 100 above the
    node of an earlier one, so that no two of the boxes, which are 60
    high, overlap. *)
Theorem first_render_rows_apart
    (historyOutput currentOutput headsOutput : string) (fuel : nat)
    (els : list Element) :
  let g := getHistory historyOutput currentOutput headsOutput in
  NoDup (map id g) ->
  snd (renderSimpleGraph fuel g emptyObject) = Drawn els ->
  forall i j b1 b2,
    nth_error (boxes els) i = Some b1 ->
    nth_error (boxes els) j = Some b2 ->
    i < j ->
    pos_y (snd b2) + levelHeight <= pos_y (snd b1).
Proof.
  intros g ND Hr i j b1 b2 H1 H2 Hij. unfold renderSimpleGraph in Hr.
  destruct (renderNodes g (assignLevels (length g) 0 g emptyObject) fuel 0
              g emptyObject []) as [np' res] eqn:E.
  simpl in Hr. subst res.
  apply (renderNodes_shape g fuel ND g [] emptyObject [] np' els eq_refl
           (stored_empty (length g))) in E.
  simpl in E. subst els.
  apply boxes_drawingFrom in H1 as [_ ->].
  apply boxes_drawingFrom in H2 as [Hj ->].
  unfold defaultPosition, levelHeight. simpl. lia.
Qed.

Lemma first_render_rows_apart_witness :
  pos_y (mkPos 450 50) + levelHeight <= pos_y (mkPos 50 250).
Proof.
  apply (first_render_rows_apart linearHistory "b2" "c3" 3
           (drawing linearGraph)
           ltac:(vm_compute; repeat constructor; simpl; intuition discriminate)
           ltac:(vm_compute; reflexivity)
           0 2 ("a1", mkPos 50 250) ("c3", mkPos 450 50));
    [reflexivity | reflexivity | lia].
Defined.

(** X17: for the records of [getHistory], when the parent of a record is
    carried only by records listed after it and has no stored position,
    [renderSimpleGraph] does not end with a drawing (reading the position
    of the parent throws, unless the call stops before); the parent has
    no stored position afterwards either, so that calling again on the
    same records fails in the same way. *)
Theorem parent_listed_later_not_drawn
    (historyOutput currentOutput headsOutput : string)
    (pre : list RevisionInfo) (r : RevisionInfo) (post : list RevisionInfo)
    (d : string) (np : JsObject Position) (fuel : nat) :
  let g := getHistory historyOutput currentOutput headsOutput in
  g = (pre ++ r :: post)%list ->
  downRevision r = Some d ->
  In d (map id post) -> ~ In d (map id (pre ++ [r])%list) ->
  np d = None ->
  notDrawn (snd (renderSimpleGraph fuel g np)) /\
  fst (renderSimpleGraph fuel g np) d = None.
Proof.
  intros g Hg Hd Hpost Hpre Hnp.
  assert (Hin : In d (map id g)).
  { rewrite Hg, map_app. apply in_or_app. right. now right. }
  assert (Ht : truthy d = true).
  { apply in_map_iff in Hin as (r' & <- & Hr').
    pose proof (parseHistory_emitted (parseCurrentRevisions currentOutput)
                  (parseHeadRevisions headsOutput) historyOutput) as H.
    rewrite Forall_forall in H. apply truthy_true. exact (proj1 (H r' Hr')). }
  assert (Hf : findIndex g d <> None).
  { intros H. now apply findIndex_None in H. }
  assert (Hr : id r <> d).
  { intros E. apply Hpre. rewrite map_app. apply in_or_app. right.
    simpl. now left. }
  assert (Hpre' : forall r', In r' pre -> id r' <> d).
  { intros r' Hr' E. apply Hpre. rewrite map_app. apply in_or_app. left.
    apply in_map_iff. now exists r'. }
  pose proof (renderNodes_parent_later g
                (assignLevels (length g) 0 g emptyObject) fuel d r post
                Hd Ht Hf Hr pre 0 np [] Hpre' Hnp) as H.
  rewrite <- Hg in H. exact H.
Qed.

Lemma parent_listed_later_not_drawn_witness :
  notDrawn (snd (renderSimpleGraph 1 (getHistory oldestFirstHistory "" "")
                                   emptyObject)) /\
  fst (renderSimpleGraph 1 (getHistory oldestFirstHistory "" "")
                         emptyObject) "a1" = None.
Proof.
  apply (parent_listed_later_not_drawn oldestFirstHistory "" "" []
           (node "b2" (Some "a1") false) [node "a1" None false] "a1").
  - vm_compute. reflexivity.
  - reflexivity.
  - simpl. auto.
  - simpl. intuition discriminate.
  - reflexivity.
Defined.

(** X18: for the records of [getHistory], when the walk from some
    current revision never ends and some record is neither current nor
    an ancestor of a current revision, [renderSimpleGraph] never ends
    with a drawing, whatever positions are stored: the call of
    [isApplied] for that record, whose result nothing reads, does not
    return (unless a node before it throws). *)
Theorem cycle_blocks_render
    (historyOutput currentOutput headsOutput : string)
    (n c : RevisionInfo) :
  let g := getHistory historyOutput currentOutput headsOutput in
  In n g -> isCurrent n = false ->
  (forall c', In c' g -> isCurrent c' = true -> ~ reaches g n c') ->
  In c g -> isCurrent c = true -> ~ walkEnds g c ->
  forall fuel np, notDrawn (snd (renderSimpleGraph fuel g np)).
Proof.
  intros g Hn Hcur Hnr Hc Hccur Hne fuel np. unfold renderSimpleGraph.
  apply (renderNodes_waits g _ fuel n Hcur); [|exact Hn].
  apply (isApplied_never g n c Hc Hccur Hcur); [|exact Hnr].
  intros H. apply terminates_iff in H as [H|H]; [|now apply Hne].
  now apply (Hnr c Hc Hccur).
Qed.

Lemma cycle_blocks_render_witness :
  notDrawn (snd (renderSimpleGraph 1000 (getHistory cyclicHistory "aa" "")
                                   emptyObject)).
Proof.
  assert (E : getHistory cyclicHistory "aa" ""
              = [node "aa" (Some "aa") true; node "bb" None false])
    by (vm_compute; reflexivity).
  refine (cycle_blocks_render cyclicHistory "aa" "" (node "bb" None false)
            (node "aa" (Some "aa") true) _ _ _ _ _ _ 1000 emptyObject);
    rewrite ?E.
  - simpl. auto.
  - reflexivity.
  - intros c' [<-|[<-|[]]] Hc; [|discriminate Hc].
    apply self_parent_never; [reflexivity | reflexivity | reflexivity |].
    discriminate.
  - simpl. auto.
  - reflexivity.
  - intros [k Hk].
    rewrite self_parent_stays in Hk by reflexivity. discriminate Hk.
Defined.

(** X19: for the records of [getHistory], in every drawing the nodes of
    records with the same identifier have the same position, whatever
    positions were stored before: records that share an identifier are
    drawn on top of each other. *)
Theorem one_position_per_identifier
    (historyOutput currentOutput headsOutput : string) (fuel : nat)
    (np : JsObject Position) (els : list Element) :
  let g := getHistory historyOutput currentOutput headsOutput in
  snd (renderSimpleGraph fuel g np) = Drawn els ->
  forall b1 b2,
    In b1 (boxes els) -> In b2 (boxes els) ->
    fst b1 = fst b2 -> snd b1 = snd b2.
Proof.
  intros g Hr b1 b2 H1 H2 E. unfold renderSimpleGraph in Hr.
  destruct (renderNodes g (assignLevels (length g) 0 g emptyObject) fuel 0
              g np []) as [np' res] eqn:Er.
  simpl in Hr. subst res.
  assert (Hp : forall b, In b (boxes els) -> np' (fst b) = Some (snd b)).
  { apply (renderNodes_positions g _ fuel g 0 np [] np' els) with (2 := Er).
    intros b []. }
  apply Hp in H1, H2. congruence.
Qed.

Lemma one_position_per_identifier_witness :
  snd (renderSimpleGraph 1 (getHistory twiceHistory "" "") emptyObject)
  = Drawn [Node 50 50 "var(--vscode-editor-background)"
                "var(--vscode-panel-border)" "aa" "" "aa";
           Node 50 50 "var(--vscode-editor-background)"
                "var(--vscode-panel-border)" "aa" "" "aa"] /\
  snd ("aa", mkPos 50 50) = snd ("aa", mkPos 50 50).
Proof.
  assert (Hr : snd (renderSimpleGraph 1 (getHistory twiceHistory "" "")
                                      emptyObject)
               = Drawn [Node 50 50 "var(--vscode-editor-background)"
                             "var(--vscode-panel-border)" "aa" "" "aa";
                        Node 50 50 "var(--vscode-editor-background)"
                             "var(--vscode-panel-border)" "aa" "" "aa"])
    by (vm_compute; reflexivity).
  split; [exact Hr|].
  apply (one_position_per_identifier twiceHistory "" "" 1 emptyObject
           _ Hr ("aa", mkPos 50 50) ("aa", mkPos 50 50)).
  - simpl. auto.
  - simpl. auto.
  - reflexivity.
Defined.

End Extras.
